(** * web3-wallet: the wallet state store and the wallet proxy

    A shallow embedding of

    - [createWalletStoreAndActions] (core store: [startConnection],
      [update], [resetState]), and
    - [createWalletProxy] (react package: current-wallet selection, the hook
      combinator and the connector wrappers),

    together with the properties the specification states about them.

    JavaScript values are embedded as follows.  A [number] is an IEEE-754
    double, taken from the standard library's [spec_float]; an optional
    field is an [option]; an array is a reference into a heap of arrays, so
    that the in-place writes of [update] and the sharing between the caller's
    array and the store's snapshot are visible; an exception is the left
    summand of the result of a computation, and the effects a computation
    had before it threw are kept. *)

From Stdlib Require Import ZArith NArith SpecFloat.
From stdpp Require Import base option list gmap strings sorting.

Set Default Proof Using "Type".

(** ** Computations with state and exceptions *)

Module Js.

(** A computation over a state [S] that either throws an [X] or returns
    an [A].  The state component of the result is the state at the
    moment of the return or of the throw. *)
Definition M (S X A : Type) : Type := S → (X + A) * S.

Definition ret {S X A} (a : A) : M S X A := λ s, (inr a, s).

Definition throw {S X A} (x : X) : M S X A := λ s, (inl x, s).

Definition bind {S X A B} (k : A → M S X B) (c : M S X A) : M S X B :=
  λ s, match c s with
       | (inl x, s') => (inl x, s')
       | (inr a, s') => k a s'
       end.

#[global] Instance M_ret {S X} : MRet (M S X) := λ A, ret.
#[global] Instance M_bind {S X} : MBind (M S X) := λ A B, bind.

Definition gets {S X A} (f : S → A) : M S X A := λ s, (inr (f s), s).

Definition modify {S X} (f : S → S) : M S X unit := λ s, (inr tt, f s).

(** A pure, fallible step (a validator) run inside a computation. *)
Definition lift {S X A} (r : X + A) : M S X A := λ s, (r, s).

Definition returned {X A} (r : X + A) : Prop := ∃ a, r = inr a.

End Js.

(** ** The wallet state store *)

Module WalletStore.

(** *** Numbers *)

Abbreviation number := spec_float.

(** [Number.isInteger]: the value [m * 2^e] is an integer. *)
Definition isInteger (x : number) : bool :=
  match x with
  | S754_zero _ => true
  | S754_finite _ m e =>
      if (0 <=? e)%Z then true else (Z.pos m mod 2 ^ (- e) =? 0)%Z
  | S754_infinity _ | S754_nan => false
  end.

(** [0 < x] on doubles. *)
Definition isPositive (x : number) : bool := SFltb (S754_zero false) x.

(** Truthiness of a number in a condition: [NaN], [0] and [-0] are
    falsy. *)
Definition truthy (x : number) : bool :=
  match x with
  | S754_zero _ | S754_nan => false
  | S754_infinity _ | S754_finite _ _ _ => true
  end.

(** The double for the integer [z]: mantissa [|z|] and exponent 0, or
    zero. *)
Definition ofZ (z : Z) : number :=
  match z with
  | Z0 => S754_zero false
  | Zpos p => S754_finite false p 0
  | Zneg p => S754_finite true p 0
  end.

(** *** Data *)

Inductive exn : Type :=
| InvalidChainId
| InvalidAccount.

(** Identity of an array object. *)
Definition loc : Type := nat.

(** [WalletState]. *)
Record WalletState : Type := mkWalletState {
  chainId : option number;
  accounts : option loc;
  isConnecting : bool;
}.

(** [Partial<WalletState>] as [update] reads it: a key that is absent
    and a key that holds [undefined] are not told apart by
    [!== undefined] and [??].  The type allows an [isConnecting], which
    [update] never reads. *)
Record StateUpdate : Type := mkStateUpdate {
  u_chainId : option number;
  u_accounts : option loc;
  u_isConnecting : option bool;
}.

(** A partial state as [setState] merges it ([Object.assign]): [None] is
    an absent key, [Some v] a key holding [v]. *)
Record Partial : Type := mkPartial {
  p_chainId : option (option number);
  p_accounts : option (option loc);
  p_isConnecting : option bool;
}.

Definition DEFAULT_WALLET_STATE : WalletState :=
  {| chainId := None; accounts := None; isConnecting := false |}.

(** What one call of [createWalletStoreAndActions] owns: the zustand
    store's current snapshot and the [nullifier] variable of the closure;
    [arrays] is the heap of array objects the snapshots and the callers
    refer to.

    [nullifier] is a JS number that is only ever incremented from 0; it
    is taken in [N], which agrees with the double as long as fewer than
    2^53 increments happened. *)
Record Store : Type := mkStore {
  state : WalletState;
  nullifier : N;
  arrays : gmap loc (list string);
}.

Definition with_state (f : WalletState → WalletState) (w : Store) : Store :=
  {| state := f (state w); nullifier := nullifier w; arrays := arrays w |}.

Definition with_arrays (f : gmap loc (list string) → gmap loc (list string))
    (w : Store) : Store :=
  {| state := state w; nullifier := nullifier w; arrays := f (arrays w) |}.

Definition assign (s : WalletState) (p : Partial) : WalletState :=
  {| chainId := default (chainId s) (p_chainId p);
     accounts := default (accounts s) (p_accounts p);
     isConnecting := default (isConnecting s) (p_isConnecting p) |}.

Definition total (s : WalletState) : Partial :=
  {| p_chainId := Some (chainId s);
     p_accounts := Some (accounts s);
     p_isConnecting := Some (isConnecting s) |}.

Abbreviation Act := (Js.M Store exn).

(** [store.setState(partial)] and [store.setState(fn)]. *)
Definition setState (p : Partial) : Act unit :=
  Js.modify (with_state (λ s, assign s p)).

Definition setStateFn (f : WalletState → Partial) : Act unit :=
  Js.modify (with_state (λ s, assign s (f s))).

(** [++nullifier] and [nullifier++]: the value after the increment. *)
Definition incrNullifier : Act N :=
  λ w, (inr (nullifier w + 1)%N,
        {| state := state w; nullifier := (nullifier w + 1)%N;
           arrays := arrays w |}).

(** The elements of the array [l]. *)
Definition elements_of (l : loc) (w : Store) : list string :=
  default [] (arrays w !! l).

(** What a reader of the store finds as [accounts]: the elements of the
    array the snapshot holds. *)
Definition accountsRead (w : Store) : option (list string) :=
  (λ l, elements_of l w) <$> accounts (state w).

(** [a[i] = v] on the array object [l]. *)
Definition writeElement (l : loc) (i : nat) (v : string) : Act unit :=
  Js.modify (with_arrays (alter (λ a, <[i := v]> a) l)).

(** *** The validators

    [validateChainId] and [validateAccount] are imported from [./utils],
    which is not among the sources. *)

(** Modelled from the spec: [validateChainId] of [./utils] is missing;
    the specification has it fail with [InvalidChainId] when the chain id
    is not a positive integer. *)
Definition validateChainId (c : number) : exn + unit :=
  if isInteger c && isPositive c then inr tt else inl InvalidChainId.

(** The update gives no chain id, or one that passes [validateChainId]. *)
Definition chainIdPasses (stateUpdate : StateUpdate) : bool :=
  from_option (λ c, isInteger c && isPositive c) true (u_chainId stateUpdate).

(** The chain id of a snapshot, when it has one, passed
    [validateChainId]. *)
Definition chainId_validated (s : WalletState) : Prop :=
  ∀ c, chainId s = Some c → isInteger c && isPositive c = true.

Section Actions.

(** What makes a string a well-formed address, and the string
    [validateAccount] returns for one, are left open. *)
Variable wellFormedAccount : string → bool.
Variable normalizeAccount : string → string.

(** Modelled from the spec: [validateAccount] of [./utils] is missing;
    the specification has it fail with [InvalidAccount] when the account
    is not a well-formed address-like string.  [update] stores what it
    returns. *)
Definition validateAccount (a : string) : exn + string :=
  if wellFormedAccount a then inr (normalizeAccount a)
  else inl InvalidAccount.

(** *** The actions *)

(** The closure [endConnection], with the [nullifierCached] it
    captured. *)
Definition endConnection (nullifierCached : N) : Act unit :=
  n ← Js.gets nullifier;
  if (n =? nullifierCached)%N
  then setState {| p_chainId := None; p_accounts := None;
                   p_isConnecting := Some false |}
  else Js.ret tt.

Definition startConnection : Act (Act unit) :=
  nullifierCached ← incrNullifier;
  setState {| p_chainId := None; p_accounts := None;
              p_isConnecting := Some true |};;
  Js.ret (endConnection nullifierCached).

(** The loop
    [for (let i = 0; i < accounts.length; i++)
       accounts[i] = validateAccount(accounts[i])]
    from index [i], with [n] an upper bound on the iterations left. *)
Fixpoint validateAccountsFrom (n i : nat) (l : loc) : Act unit :=
  match n with
  | O => Js.ret tt
  | S n' =>
      arr ← Js.gets (elements_of l);
      match arr !! i with
      | None => Js.ret tt
      | Some a =>
          a' ← Js.lift (validateAccount a);
          writeElement l i a';;
          validateAccountsFrom n' (S i) l
      end
  end.

Definition validateAccounts (l : loc) : Act unit :=
  arr ← Js.gets (elements_of l);
  validateAccountsFrom (length arr) 0 l.

(** [a ?? b]. *)
Definition nullish {A} (a b : option A) : option A :=
  match a with Some _ => a | None => b end.

(** The updater [update] hands to [setState]. *)
Definition reconcile (stateUpdate : StateUpdate) (existingState : WalletState)
    : WalletState :=
  let chainId' := nullish (u_chainId stateUpdate) (chainId existingState) in
  let accounts' := nullish (u_accounts stateUpdate) (accounts existingState) in
  let isConnecting' := isConnecting existingState in
  let isConnecting' :=
    if isConnecting'
       && from_option truthy false chainId'
       && bool_decide (is_Some accounts')
    then false else isConnecting' in
  {| chainId := chainId'; accounts := accounts';
     isConnecting := isConnecting' |}.

Definition update (stateUpdate : StateUpdate) : Act unit :=
  match u_chainId stateUpdate with
  | Some c => Js.lift (validateChainId c)
  | None => Js.ret tt
  end;;
  match u_accounts stateUpdate with
  | Some l => validateAccounts l
  | None => Js.ret tt
  end;;
  incrNullifier;;
  setStateFn (λ existingState, total (reconcile stateUpdate existingState)).

Definition resetState : Act unit :=
  incrNullifier;;
  setState (total DEFAULT_WALLET_STATE).

(** *** Vocabulary of the statements *)

(** The elements of an array once the validation loop has left it, and
    whether the loop ran to its end: the accounts before the first one that
    is not well formed have been replaced by what [validateAccount]
    returned. *)
Fixpoint validatedPrefix (arr : list string) : list string * bool :=
  match arr with
  | [] => ([], true)
  | a :: arr' =>
      if wellFormedAccount a
      then let '(r, ok) := validatedPrefix arr' in (normalizeAccount a :: r, ok)
      else (a :: arr', false)
  end.

(** The update passes both validations in [w]. *)
Definition validUpdate (stateUpdate : StateUpdate) (w : Store) : bool :=
  chainIdPasses stateUpdate
  && from_option (λ l, forallb wellFormedAccount (elements_of l w)) true
       (u_accounts stateUpdate).

(** What can happen to a store between two moments: its three actions, a
    call of an [endConnection] closure handed out earlier, and a caller
    writing to an array of its own. *)
Inductive Event : Type :=
| EStartConnection
| EUpdate (stateUpdate : StateUpdate)
| EResetState
| EEndConnection (nullifierCached : N)
| EArrayWrite (l : loc) (arr : list string).

Definition perform (e : Event) : Act unit :=
  match e with
  | EStartConnection => startConnection;; Js.ret tt
  | EUpdate stateUpdate => update stateUpdate
  | EResetState => resetState
  | EEndConnection nullifierCached => endConnection nullifierCached
  | EArrayWrite l arr => Js.modify (with_arrays (<[l := arr]>))
  end.

Definition after (w : Store) (e : Event) : Store := (perform e w).2.

Definition run (es : list Event) (w : Store) : Store := foldl after w es.

(** [e], happening in [w], is a lifecycle event: a [startConnection], a
    [resetState], or an [update] that is carried out. *)
Definition lifecycle (e : Event) (w : Store) : bool :=
  match e with
  | EStartConnection | EResetState => true
  | EUpdate stateUpdate => validUpdate stateUpdate w
  | EEndConnection _ | EArrayWrite _ _ => false
  end.

(** No lifecycle event happens when [es] happen from [w] on. *)
Fixpoint quiet (es : list Event) (w : Store) : bool :=
  match es with
  | [] => true
  | e :: es' => negb (lifecycle e w) && quiet es' (after w e)
  end.

(** The states a store goes through. *)
Inductive reachable : Store → Prop :=
| reachable_created (arrs : gmap loc (list string)) :
    reachable {| state := DEFAULT_WALLET_STATE; nullifier := 0;
                 arrays := arrs |}
| reachable_after (w : Store) (e : Event) :
    reachable w → reachable (after w e).

End Actions.

(** *** Stand-ins for the examples

    An address check and a normal form to run the store on: "0x" and
    anything after it, with the letters A to F in lower case. *)
Definition sampleWellFormed (a : string) : bool := String.prefix "0x" a.

Fixpoint sampleNormalize (a : string) : string :=
  match a with
  | EmptyString => EmptyString
  | String c a' =>
      let n := Ascii.nat_of_ascii c in
      String (if (65 <=? n) && (n <=? 70) then Ascii.ascii_of_nat (n + 32)
              else c)
             (sampleNormalize a')
  end.

(** A store just created, in a heap with an array of two well-formed
    accounts and an array whose second account is not an address. *)
Definition sampleStore : Store :=
  {| state := DEFAULT_WALLET_STATE; nullifier := 0;
     arrays := {[ 0 := ["0xAB"; "0xcd"]; 1 := ["0xEF"; "nope"; "0xAA"] ]} |}.

End WalletStore.


(** ** The wallet proxy *)

Module WalletProxy.

(** *** Data *)

(** What hooks and connectors are given and give back. *)
#[local] Unset Elimination Schemes.
Inductive Value : Type :=
| undefined
| VBoolean (b : bool)
| VNumber (z : Z)
| VString (s : string)
| VArray (vs : list Value).
#[local] Set Elimination Schemes.

Inductive exn : Type :=
| Error (message : string)
| TypeError (message : string)
| Rejected (reason : Value).

Abbreviation WalletName := string.

(** [WalletProxyState].  A [connectionId] is only ever a reading of
    [Date.now()], an integral number of milliseconds. *)
Record WalletProxyState : Type := mkWalletProxyState {
  currentWallet : option WalletName;
  connectionId : option Z;
}.

(** A partial state as [useStore.setState] merges it. *)
Record Partial : Type := mkPartial {
  p_currentWallet : option (option WalletName);
  p_connectionId : option (option Z);
}.

Definition assign (s : WalletProxyState) (p : Partial) : WalletProxyState :=
  {| currentWallet := default (currentWallet s) (p_currentWallet p);
     connectionId := default (connectionId s) (p_connectionId p) |}.

(** What the persistence backend keeps under one key: a state and the
    version of its schema.  The state went through JSON, which drops a key
    that holds [undefined]: [None] is an absent key. *)
Record StorageValue : Type := mkStorageValue {
  sv_state : WalletProxyState;
  sv_version : Z;
}.

(** The persistence backend: the records by key. *)
Abbreviation Storage := (gmap string StorageValue).

(** One call into a wallet: of a hook, or of a method of its connector. *)
Inductive Call : Type :=
| HookCall (wallet : WalletName) (hook : string) (args : list Value)
| ConnectorCall (wallet : WalletName) (method : string) (args : list Value).

Section Proxy.

(** The state of everything outside the proxy: the connectors' sessions,
    the state behind the wallets' hooks. *)
Context {E : Type}.

(** What code outside the proxy can see and change: the proxy's store
    (through the proxy's own operations), the clock, and its own state. *)
Record Env : Type := mkEnv {
  store : WalletProxyState;
  clock : Z;
  outside : E;
}.

(** [calls] lists the calls into wallets in the order they were made, and
    [console] the messages given to [console.debug]. *)
Record World : Type := mkWorld {
  env : Env;
  calls : list Call;
  console : list string;
}.

(** A function of a wallet.  For an [async] method the computation stands
    for the call and for whatever else ran until the [await] on it
    resumed; [inl] is a throw or a rejected promise. *)
Abbreviation External := (Js.M Env exn).

Abbreviation Proxy := (Js.M World exn).

Abbreviation Fn := (list Value → Proxy Value).

Record Connector : Type := mkConnector {
  connect : list Value → External Value;
  autoConnect : list Value → External Value;
  autoConnectOnce : list Value → External Value;
  disconnect : list Value → External Value;
}.

Record Wallet : Type := mkWallet {
  name : WalletName;
  connector : Connector;
  hooks : gmap string (list Value → External Value);
}.

Record Options : Type := mkOptions {
  defaultCurrentWallet : option WalletName;
  key : option string;
}.

(** The cell React keeps for one [useMemo] call site of one component:
    the dependencies and the value of the last computation. *)
Definition MemoCell (D A : Type) : Type := option (D * A).

(** The object [createWalletProxy] returns. *)
Record WalletProxy : Type := mkWalletProxy {
  proxy_hooks : gmap string Fn;
  proxy_wallets : list Wallet;
  proxy_useCurrentWallet :
    MemoCell (option WalletName) Wallet →
    Proxy (Wallet * MemoCell (option WalletName) Wallet);
  proxy_setCurrentWallet : WalletName → Proxy unit;
  proxy_useConnectionId : Proxy (option Z);
  proxy_useConnect :
    MemoCell (option WalletName) Wallet →
    Proxy (Fn * MemoCell (option WalletName) Wallet);
  proxy_useAutoConnect :
    MemoCell (option WalletName) Wallet →
    Proxy (Fn * MemoCell (option WalletName) Wallet);
  proxy_useAutoConnectOnce :
    MemoCell (option WalletName) Wallet →
    Proxy (Fn * MemoCell (option WalletName) Wallet);
  proxy_useDisconnect :
    MemoCell (option WalletName) Wallet →
    Proxy (Fn * MemoCell (option WalletName) Wallet);
}.

(** *** The runtime *)

Definition with_store (f : WalletProxyState → WalletProxyState) (w : World)
    : World :=
  {| env := {| store := f (store (env w)); clock := clock (env w);
               outside := outside (env w) |};
     calls := calls w; console := console w |}.

(** [useStore.getState()], and [useStore(selector)] during a render. *)
Definition getState : Proxy WalletProxyState := Js.gets (λ w, store (env w)).

Definition useStore {A} (selector : WalletProxyState → A) : Proxy A :=
  Js.gets (λ w, selector (store (env w))).

Definition setState (p : Partial) : Proxy unit :=
  Js.modify (with_store (λ s, assign s p)).

Definition Date_now : Proxy Z := Js.gets (λ w, clock (env w)).

Definition console_debug (message : string) : Proxy unit :=
  Js.modify (λ w, {| env := env w; calls := calls w;
                     console := console w ++ [message] |}).

(** Calling the function [f] of a wallet: the call is listed, [f] runs on
    what is outside the proxy. *)
Definition invoke {A} (c : Call) (f : External A) : Proxy A :=
  λ w, let '(r, e) := f (env w) in
       (r, {| env := e; calls := calls w ++ [c]; console := console w |}).

(** [useMemo(factory, deps)] on the cell [cell]: [factory] runs on the
    first render and when [deps] differs from the dependencies of the last
    computation. *)
Definition useMemo {D A} `{EqDecision D} (cell : MemoCell D A)
    (factory : Proxy A) (deps : D) : Proxy (A * MemoCell D A) :=
  match cell with
  | Some (deps', value) =>
      if decide (deps' = deps) then Js.ret (value, cell)
      else value' ← factory; Js.ret (value', Some (deps, value'))
  | None => value' ← factory; Js.ret (value', Some (deps, value'))
  end.

(** Truthiness of an optional number, and [a || b] on an optional
    string. *)
Definition truthy (n : option Z) : bool :=
  match n with
  | Some z => negb (z =? 0)%Z
  | None => false
  end.

Definition or_else (a : option string) (b : string) : string :=
  match a with
  | Some EmptyString | None => b
  | Some s => s
  end.

(** *** [createWalletProxy] *)

Section Closure.

(** The array [wallets] the closures of one proxy share. *)
Variable wallets : list Wallet.

(** [wallets[0]], of which a property is read next. *)
Definition wallets_0 : Proxy Wallet :=
  match wallets !! 0 with
  | Some w => Js.ret w
  | None => Js.throw (TypeError "Cannot read properties of undefined")
  end.

Definition setCurrentWallet (currentWallet : WalletName) : Proxy unit :=
  setState {| p_currentWallet := Some (Some currentWallet);
              p_connectionId := None |}.

Definition useCurrentWallet (cell : MemoCell (option WalletName) Wallet)
    : Proxy (Wallet * MemoCell (option WalletName) Wallet) :=
  currentWalletName ← useStore currentWallet;
  useMemo cell
    (let found :=
       List.find (λ w, bool_decide (Some (name w) = currentWalletName))
                 wallets in
     match found with
     | None => w0 ← wallets_0; setCurrentWallet (name w0)
     | Some _ => Js.ret tt
     end;;
     match found with
     | Some w => Js.ret w
     | None => wallets_0
     end)
    currentWalletName.

Definition useConnectionId : Proxy (option Z) := useStore connectionId.

(** The loop [for (const wallet of wallets)] of a combined hook, on the
    wallets still to visit. *)
Fixpoint combinedHookLoop (hookName : string) (args : list Value)
    (currentWalletName : option WalletName) (ws : list Wallet)
    (hookFnOutput : Value) : Proxy Value :=
  match ws with
  | [] => Js.ret hookFnOutput
  | wallet :: ws' =>
      hookFn ← match hooks wallet !! hookName with
               | Some f => Js.ret f
               | None => Js.throw (TypeError "hookFn is not a function")
               end;
      value ← invoke (HookCall (name wallet) hookName args) (hookFn args);
      combinedHookLoop hookName args currentWalletName ws'
        (if bool_decide (Some (name wallet) = currentWalletName)
         then value else hookFnOutput)
  end.

Definition combinedHook (hookName : string) : Fn := λ args,
  state ← getState;
  let currentWalletName := currentWallet state in
  combinedHookLoop hookName args currentWalletName wallets undefined.

(** [Object.keys(hooks).sort()]: the keys in the order of the code units,
    which for the strings of bytes here is the lexicographic order. *)
Definition sortedKeys {A} (o : gmap string A) : list string :=
  merge_sort String.le (elements (dom o)).

Definition getCombinedHooks : exn + gmap string Fn :=
  match wallets !! 0 with
  | Some w0 =>
      inr (foldl (λ combinedHooks hookName,
                    <[hookName := combinedHook hookName]> combinedHooks)
                 ∅ (sortedKeys (hooks w0)))
  | None => inl (TypeError "Cannot read properties of undefined")
  end.

Definition useConnect (cell : MemoCell (option WalletName) Wallet)
    : Proxy (Fn * MemoCell (option WalletName) Wallet) :=
  '(wallet, cell') ← useCurrentWallet cell;
  let connect : Fn := λ args,
    invoke (ConnectorCall (name wallet) "connect" args)
           (connect (connector wallet) args);;
    now ← Date_now;
    setState {| p_currentWallet := None; p_connectionId := Some (Some now) |};;
    Js.ret undefined in
  Js.ret (connect, cell').

Definition useAutoConnect (cell : MemoCell (option WalletName) Wallet)
    : Proxy (Fn * MemoCell (option WalletName) Wallet) :=
  '(wallet, cell') ← useCurrentWallet cell;
  let autoConnect : Fn := λ args,
    result ← invoke (ConnectorCall (name wallet) "autoConnect" args)
                    (autoConnect (connector wallet) args);
    now ← Date_now;
    setState {| p_currentWallet := None; p_connectionId := Some (Some now) |};;
    Js.ret result in
  Js.ret (autoConnect, cell').

Definition useAutoConnectOnce (cell : MemoCell (option WalletName) Wallet)
    : Proxy (Fn * MemoCell (option WalletName) Wallet) :=
  '(wallet, cell') ← useCurrentWallet cell;
  let autoConnectOnce : Fn := λ args,
    state ← getState;
    let connectionId := connectionId state in
    if negb (truthy connectionId)
    then
      console_debug "connectionId don't exists, auto connect is suppressed";;
      Js.ret (VBoolean false)
    else
      invoke (ConnectorCall (name wallet) "autoConnectOnce" args)
             (autoConnectOnce (connector wallet) args) in
  Js.ret (autoConnectOnce, cell').

Definition useDisconnect (cell : MemoCell (option WalletName) Wallet)
    : Proxy (Fn * MemoCell (option WalletName) Wallet) :=
  '(wallet, cell') ← useCurrentWallet cell;
  let disconnect : Fn := λ args,
    result ← invoke (ConnectorCall (name wallet) "disconnect" args)
                    (disconnect (connector wallet) args);
    setState {| p_currentWallet := None; p_connectionId := Some None |};;
    Js.ret result in
  Js.ret (disconnect, cell').

End Closure.

(** [persist] of [zustand/middleware] is not among the sources.  The
    specification has the persistence collaborator keep the record
    [{currentWallet, connectionId}] under the namespace key, with schema
    version 0, loading it when the store is created and saving it on every
    mutation.  From the creation of the store on, the record under the key
    is therefore the state of the store, and the world keeps no second copy
    of it; what is left to model is the loading. *)

(** Modelled from the spec: the loading of [persist], which is missing.
    The state saved under [name], when a record is saved there and has the
    schema version [version]. *)
Definition load (name : string) (version : Z) (storage : Storage)
    : option WalletProxyState :=
  match storage !! name with
  | Some value =>
      if bool_decide (sv_version value = version)
      then Some (sv_state value) else None
  | None => None
  end.

(** Modelled from the spec: the merge of [persist], which is missing.  The
    keys of the loaded state are laid over the current state. *)
Definition merge (persistedState currentState : WalletProxyState)
    : WalletProxyState :=
  {| currentWallet :=
       match currentWallet persistedState with
       | Some currentWallet => Some currentWallet
       | None => currentWallet currentState
       end;
     connectionId :=
       match connectionId persistedState with
       | Some connectionId => Some connectionId
       | None => connectionId currentState
       end |}.

(** Modelled from the spec: [persist(initializer, {name, version})], which
    is missing.  The state the store starts from: the one of the
    initializer, under what is loaded from the persistence backend. *)
Definition persist (initializer : WalletProxyState) (name : string)
    (version : Z) (storage : Storage) : WalletProxyState :=
  match load name version storage with
  | Some persistedState => merge persistedState initializer
  | None => initializer
  end.

(** [createWalletProxy(wallets, options)], where the persistence backend
    holds [storage].  The store it creates is the one of the world. *)
Definition createWalletProxy (storage : Storage) (wallets : list Wallet)
    (options : Options) : Proxy WalletProxy :=
  let defaultCurrentWallet := defaultCurrentWallet options in
  let key := default "@web3-wallet" (key options) in
  if bool_decide (length wallets = 0)
  then Js.throw (Error "wallets can't be empty")
  else
    w0 ← wallets_0 wallets;
    Js.modify (with_store (λ _,
      persist
        {| connectionId := None;
           currentWallet := Some (or_else defaultCurrentWallet (name w0)) |}
        key 0 storage));;
    combinedHooks ← Js.lift (getCombinedHooks wallets);
    Js.ret {| proxy_hooks := combinedHooks;
              proxy_wallets := wallets;
              proxy_useCurrentWallet := useCurrentWallet wallets;
              proxy_setCurrentWallet := setCurrentWallet;
              proxy_useConnectionId := useConnectionId;
              proxy_useConnect := useConnect wallets;
              proxy_useAutoConnect := useAutoConnect wallets;
              proxy_useAutoConnectOnce := useAutoConnectOnce wallets;
              proxy_useDisconnect := useDisconnect wallets |}.

(** *** Vocabulary of the statements *)

(** The error of a proxy over no wallets, which the specification calls
    [EmptyWalletSet]. *)
Definition EmptyWalletSet : exn := Error "wallets can't be empty".

(** Every call of the hook [hookName] of [wallet] returns. *)
Definition hookReturns (hookName : string) (wallet : Wallet) : Prop :=
  ∃ hookFn : list Value → External Value,
    hooks wallet !! hookName = Some hookFn
    ∧ ∀ args e, Js.returned (hookFn args e).1.

(** Starting from [e], the hook [hookName] of each of the wallets [ws] is
    called once with [args], in the order of [ws], each call starting from
    where the one before left; the calls return [vs] and leave [e']. *)
Inductive hooksCalled (hookName : string) (args : list Value)
    : list Wallet → Env → list Value → Env → Prop :=
| hooksCalled_nil (e : Env) : hooksCalled hookName args [] e [] e
| hooksCalled_cons (wallet : Wallet) (ws : list Wallet)
    (hookFn : list Value → External Value) (e e1 e' : Env)
    (v : Value) (vs : list Value) :
    hooks wallet !! hookName = Some hookFn →
    hookFn args e = (inr v, e1) →
    hooksCalled hookName args ws e1 vs e' →
    hooksCalled hookName args (wallet :: ws) e (v :: vs) e'.

(** The cell of a [useMemo] of [useCurrentWallet] holds what its factory
    returns for the dependencies it holds. *)
Definition memoCoherent (wallets : list Wallet)
    (cell : MemoCell (option WalletName) Wallet) : Prop :=
  match cell with
  | None => True
  | Some (deps, value) =>
      match List.find (λ w, bool_decide (Some (name w) = deps)) wallets with
      | Some found => value = found
      | None => wallets !! 0 = Some value
      end
  end.

(** The cell holds a computation for the dependencies [deps]. *)
Definition memoFor {D A} (deps : D) (cell : MemoCell D A) : Prop :=
  ∃ value, cell = Some (deps, value).

End Proxy.

Arguments Env : clear implicits.
Arguments World : clear implicits.
Arguments Connector : clear implicits.
Arguments Wallet : clear implicits.
Arguments WalletProxy : clear implicits.

(** *** Stand-ins for the examples

    Three wallets over a world that remembers whether a session is open.
    Connecting opens the session; auto-connecting takes three milliseconds
    and reports whether one is open; disconnecting closes it and is
    rejected when none is open. *)

Definition sampleConnector : Connector bool :=
  {| connect := λ _ e,
       (inr undefined,
        {| store := store e; clock := clock e; outside := true |});
     autoConnect := λ _ e,
       (inr (VBoolean (outside e)),
        {| store := store e; clock := clock e + 3; outside := outside e |});
     autoConnectOnce := λ _ e, (inr (VBoolean (outside e)), e);
     disconnect := λ _ e,
       if outside e
       then (inr undefined,
             {| store := store e; clock := clock e; outside := false |})
       else (inl (Rejected (VString "no session")), e) |}.

Definition sampleWallet (walletName : WalletName) (account : string)
    : Wallet bool :=
  {| name := walletName;
     connector := sampleConnector;
     hooks :=
       {[ "useIsConnected" := λ _ e, (inr (VBoolean (outside e)), e);
          "useAccounts" := λ _ e, (inr (VArray [VString account]), e) ]} |}.

Definition sampleWallets : list (Wallet bool) :=
  [ sampleWallet "MetaMask" "0xaa";
    sampleWallet "Coinbase" "0xbb";
    sampleWallet "Trust" "0xcc" ].

(** A persistence backend that holds, under the default key, the state of
    an earlier session: Trust was selected and connected. *)
Definition sampleStorage : Storage :=
  {[ "@web3-wallet" :=
       {| sv_state := {| currentWallet := Some "Trust";
                         connectionId := Some 7%Z |};
          sv_version := 0 |} ]}.

Definition sampleWorld (current : option WalletName) (id : option Z)
    (now : Z) (session : bool) : World bool :=
  {| env := {| store := {| currentWallet := current; connectionId := id |};
               clock := now; outside := session |};
     calls := []; console := [] |}.

End WalletProxy.


(** * Running computations *)

Module JsFacts.

Section Run.

Context {S X A B : Type}.

Lemma bind_returned (c : Js.M S X A) (k : A → Js.M S X B) (s s' : S) (a : A) :
  c s = (inr a, s') → (c ≫= k) s = k a s'.
Proof. intros Hc. unfold mbind, Js.M_bind, Js.bind. by rewrite Hc. Qed.

Lemma bind_thrown (c : Js.M S X A) (k : A → Js.M S X B) (s s' : S) (x : X) :
  c s = (inl x, s') → (c ≫= k) s = (inl x, s').
Proof. intros Hc. unfold mbind, Js.M_bind, Js.bind. by rewrite Hc. Qed.

End Run.

End JsFacts.

(** * Properties of the wallet state store *)

Module StoreFacts.

Import JsFacts.

Import WalletStore.

(** Unfolds the plumbing of computations. *)
Ltac run_js :=
  repeat (unfold mbind, mret, Js.M_bind, Js.M_ret, Js.bind, Js.ret, Js.throw,
            Js.gets, Js.modify, Js.lift; cbn).

Lemma positive_integer_truthy (c : number) :
  isInteger c && isPositive c = true → truthy c = true.
Proof.
  intros [_ Hpos]%andb_true_iff. by destruct c.
Qed.

Lemma store_eta (w : Store) :
  {| state := state w; nullifier := nullifier w; arrays := arrays w |} = w.
Proof. by destruct w. Qed.

Section Actions.

Variable wellFormedAccount : string → bool.
Variable normalizeAccount : string → string.

Local Abbreviation validatedPrefix :=
  (validatedPrefix wellFormedAccount normalizeAccount).
Local Abbreviation validUpdate := (validUpdate wellFormedAccount).
Local Abbreviation update := (update wellFormedAccount normalizeAccount).
Local Abbreviation after := (after wellFormedAccount normalizeAccount).
Local Abbreviation run := (run wellFormedAccount normalizeAccount).
Local Abbreviation quiet := (quiet wellFormedAccount normalizeAccount).
Local Abbreviation lifecycle := (lifecycle wellFormedAccount).
Local Abbreviation reachable := (reachable wellFormedAccount normalizeAccount).

(** *** The two closures *)

Lemma endConnection_eq (n : N) (w : Store) :
  endConnection n w =
  (inr tt,
   if (nullifier w =? n)%N
   then {| state := {| chainId := chainId (state w);
                       accounts := accounts (state w);
                       isConnecting := false |};
           nullifier := nullifier w; arrays := arrays w |}
   else w).
Proof.
  unfold endConnection, setState. run_js. by destruct (_ =? _)%N.
Qed.

Lemma startConnection_eq (w : Store) :
  startConnection w =
  (inr (endConnection (nullifier w + 1)),
   {| state := {| chainId := chainId (state w);
                  accounts := accounts (state w);
                  isConnecting := true |};
      nullifier := nullifier w + 1; arrays := arrays w |}).
Proof. reflexivity. Qed.

(** *** The validation loop *)

Lemma validatedPrefix_ok (arr : list string) :
  (validatedPrefix arr).2 = forallb wellFormedAccount arr.
Proof.
  induction arr as [|a arr IH]; [done|]. cbn.
  destruct (wellFormedAccount a); [|done].
  destruct (validatedPrefix arr) as [r ok]. by cbn in *.
Qed.

Lemma validatedPrefix_all (arr : list string) :
  forallb wellFormedAccount arr = true →
  validatedPrefix arr = (normalizeAccount <$> arr, true).
Proof.
  induction arr as [|a arr IH]; [done|]. cbn.
  intros [-> Harr]%andb_true_iff. by rewrite (IH Harr).
Qed.

Lemma validatedPrefix_first (pre post : list string) (a : string) :
  forallb wellFormedAccount pre = true → wellFormedAccount a = false →
  validatedPrefix (pre ++ a :: post) =
  ((normalizeAccount <$> pre) ++ a :: post, false).
Proof.
  intros Hpre Ha. induction pre as [|b pre IH]; cbn.
  - by rewrite Ha.
  - cbn in Hpre. apply andb_true_iff in Hpre as [-> Hpre].
    by rewrite (IH Hpre).
Qed.

Lemma with_arrays_insert_id (l : loc) (arr : list string) (w : Store) :
  arrays w !! l = Some arr → with_arrays (<[l := arr]>) w = w.
Proof.
  intros Hl. destruct w as [s n arrs]. unfold with_arrays. cbn in *.
  by rewrite insert_id.
Qed.

Lemma validateAccountsFrom_eq (suf : list string) :
  ∀ (n : nat) (pre : list string) (l : loc) (w : Store),
  arrays w !! l = Some (pre ++ suf) → length suf ≤ n →
  validateAccountsFrom wellFormedAccount normalizeAccount n (length pre) l w =
  (if (validatedPrefix suf).2 then inr tt else inl InvalidAccount,
   with_arrays (<[l := pre ++ (validatedPrefix suf).1]>) w).
Proof.
  induction suf as [|a suf IH]; intros n pre l w Hl Hn.
  - cbn. rewrite with_arrays_insert_id by done.
    destruct n as [|n]; [done|]. cbn. run_js. unfold elements_of.
    rewrite Hl. cbn. by rewrite lookup_ge_None_2 by (rewrite app_nil_r; lia).
  - destruct n as [|n]; [cbn in Hn; lia|]. cbn. run_js. unfold elements_of.
    rewrite Hl. cbn.
    rewrite (list_lookup_middle pre suf a (length pre) eq_refl).
    unfold validateAccount.
    destruct (wellFormedAccount a) eqn:Ha; cbn.
    + specialize (IH n (pre ++ [normalizeAccount a]) l
        (with_arrays
           (alter (λ arr, <[length pre := normalizeAccount a]> arr) l) w)).
      rewrite length_app in IH. cbn in IH.
      replace (length pre + 1) with (S (length pre)) in IH by lia.
      rewrite IH; clear IH.
      * destruct (validatedPrefix suf) as [r ok]. cbn. f_equal.
        unfold with_arrays. cbn. f_equal. apply map_eq. intros l'.
        destruct (decide (l = l')) as [<-|Hne].
        -- rewrite !lookup_insert_eq. by rewrite <- app_assoc.
        -- rewrite !lookup_insert_ne by done. by rewrite lookup_alter_ne.
      * cbn. rewrite lookup_alter_eq, Hl. cbn. f_equal.
        rewrite insert_app_r_alt by lia. rewrite Nat.sub_diag. cbn.
        by rewrite <- app_assoc.
      * cbn in Hn. lia.
    + by rewrite with_arrays_insert_id.
Qed.

(** The loop, characterised by [validatedPrefix]. *)
Lemma validateAccounts_eq (l : loc) (w : Store) :
  validateAccounts wellFormedAccount normalizeAccount l w =
  (if (validatedPrefix (elements_of l w)).2 then inr tt
   else inl InvalidAccount,
   with_arrays (alter (λ _, (validatedPrefix (elements_of l w)).1) l) w).
Proof.
  unfold validateAccounts. run_js. unfold elements_of.
  destruct (arrays w !! l) as [arr|] eqn:Hl; cbn.
  - pose proof (validateAccountsFrom_eq arr (length arr) [] l w Hl) as Heq.
    cbn in Heq. rewrite Heq by done. f_equal. unfold with_arrays. f_equal.
    apply map_eq. intros l'.
    destruct (decide (l = l')) as [<-|Hne].
    + by rewrite lookup_insert_eq, lookup_alter_eq, Hl.
    + by rewrite lookup_insert_ne, lookup_alter_ne.
  - f_equal. destruct w as [s n arrs]. unfold with_arrays. cbn in *.
    f_equal. apply map_eq. intros l'.
    destruct (decide (l = l')) as [<-|Hne].
    + by rewrite lookup_alter_eq, Hl.
    + by rewrite lookup_alter_ne.
Qed.

(** *** [update] *)

Lemma fmap_fixed (arr : list string) :
  Forall (λ a, normalizeAccount a = a) arr → normalizeAccount <$> arr = arr.
Proof.
  induction 1 as [|a arr Ha _ IH]; [done|]. rewrite fmap_cons. congruence.
Qed.

Lemma validate_chainId_returned (stateUpdate : StateUpdate) (w : Store) :
  chainIdPasses stateUpdate = true →
  match u_chainId stateUpdate with
  | Some c => Js.lift (validateChainId c)
  | None => Js.ret tt
  end w = (inr tt, w).
Proof.
  unfold chainIdPasses. destruct (u_chainId stateUpdate) as [c|]; cbn; [|done].
  intros Hc. unfold Js.lift, validateChainId. by rewrite Hc.
Qed.

Lemma update_chainId_invalid (stateUpdate : StateUpdate) (c : number)
    (w : Store) :
  u_chainId stateUpdate = Some c → isInteger c && isPositive c = false →
  update stateUpdate w = (inl InvalidChainId, w).
Proof.
  intros Hc Hbad. unfold WalletStore.update. apply bind_thrown.
  rewrite Hc. unfold Js.lift, validateChainId. by rewrite Hbad.
Qed.

Lemma update_accounts_invalid (stateUpdate : StateUpdate) (l : loc)
    (w : Store) :
  chainIdPasses stateUpdate = true →
  u_accounts stateUpdate = Some l →
  forallb wellFormedAccount (elements_of l w) = false →
  update stateUpdate w =
  (inl InvalidAccount,
   with_arrays (alter (λ _, (validatedPrefix (elements_of l w)).1) l) w).
Proof.
  intros Hc Hl Hbad. unfold WalletStore.update.
  rewrite (bind_returned _ _ _ _ _ (validate_chainId_returned _ w Hc)).
  apply bind_thrown. rewrite Hl.
  by rewrite validateAccounts_eq, validatedPrefix_ok, Hbad.
Qed.

Lemma update_valid (stateUpdate : StateUpdate) (w : Store) :
  validUpdate stateUpdate w = true →
  update stateUpdate w =
  (inr tt,
   {| state := reconcile stateUpdate (state w);
      nullifier := nullifier w + 1;
      arrays :=
        match u_accounts stateUpdate with
        | Some l => alter (λ _, normalizeAccount <$> elements_of l w) l
                      (arrays w)
        | None => arrays w
        end |}).
Proof.
  unfold WalletStore.validUpdate. intros [Hc Ha]%andb_true_iff.
  unfold WalletStore.update.
  rewrite (bind_returned _ _ _ _ _ (validate_chainId_returned _ w Hc)).
  destruct (u_accounts stateUpdate) as [l|]; cbn in Ha.
  - erewrite bind_returned; last first.
    { rewrite validateAccounts_eq, validatedPrefix_ok, Ha.
      by rewrite (validatedPrefix_all _ Ha). }
    reflexivity.
  - reflexivity.
Qed.

Lemma update_invalid (stateUpdate : StateUpdate) (w : Store) :
  validUpdate stateUpdate w = false →
  ∃ arrs,
    update stateUpdate w =
    (inl (if chainIdPasses stateUpdate then InvalidAccount
          else InvalidChainId),
     {| state := state w; nullifier := nullifier w; arrays := arrs |}).
Proof.
  unfold WalletStore.validUpdate. intros Hbad.
  destruct (chainIdPasses stateUpdate) eqn:Hc.
  - destruct (u_accounts stateUpdate) as [l|] eqn:Hl; cbn in Hbad; [|done].
    eexists. by rewrite (update_accounts_invalid _ l).
  - unfold chainIdPasses in Hc.
    destruct (u_chainId stateUpdate) as [c|] eqn:Hc'; cbn in Hc; [|done].
    exists (arrays w).
    rewrite (update_chainId_invalid _ c) by done. by rewrite store_eta.
Qed.

(** *** Events and the nullifier *)

Lemma after_eq (w : Store) (e : Event) :
  after w e =
  match e with
  | EStartConnection => (startConnection w).2
  | EUpdate stateUpdate => (update stateUpdate w).2
  | EResetState => (resetState w).2
  | EEndConnection n => (endConnection n w).2
  | EArrayWrite l arr => with_arrays (<[l := arr]>) w
  end.
Proof. by destruct e. Qed.

Lemma nullifier_after (w : Store) (e : Event) :
  nullifier (after w e) =
  (nullifier w + if lifecycle e w then 1 else 0)%N.
Proof.
  rewrite after_eq. destruct e as [|stateUpdate| |n|l arr]; cbn.
  - done.
  - destruct (validUpdate stateUpdate w) eqn:Hv.
    + by rewrite update_valid.
    + destruct (update_invalid _ _ Hv) as (arrs & ->). cbn. lia.
  - done.
  - rewrite endConnection_eq. cbn. destruct (_ =? _)%N; cbn; lia.
  - lia.
Qed.

Lemma run_cons (e : Event) (es : list Event) (w : Store) :
  run (e :: es) w = run es (after w e).
Proof. reflexivity. Qed.

Lemma nullifier_run_le (es : list Event) (w : Store) :
  (nullifier w ≤ nullifier (run es w))%N.
Proof.
  revert w. induction es as [|e es IH]; intros w; [done|].
  rewrite run_cons. etrans; [|apply IH]. rewrite nullifier_after.
  destruct (lifecycle e w); lia.
Qed.

Lemma nullifier_run_quiet (es : list Event) (w : Store) :
  quiet es w = true → nullifier (run es w) = nullifier w.
Proof.
  revert w. induction es as [|e es IH]; intros w; [done|].
  rewrite run_cons. cbn. intros [He Hes]%andb_true_iff.
  rewrite (IH _ Hes), nullifier_after.
  destruct (lifecycle e w); [done|lia].
Qed.

Lemma nullifier_run_loud (es : list Event) (w : Store) :
  quiet es w = false → (nullifier w < nullifier (run es w))%N.
Proof.
  revert w. induction es as [|e es IH]; intros w; [done|].
  rewrite run_cons. cbn. intros [He|Hes]%andb_false_iff.
  - eapply N.lt_le_trans; [|apply nullifier_run_le]. rewrite nullifier_after.
    destruct (lifecycle e w); [lia|done].
  - eapply N.le_lt_trans; [|apply (IH _ Hes)]. rewrite nullifier_after.
    destruct (lifecycle e w); lia.
Qed.

(** *** The chain id of a store is a validated one *)

Lemma reachable_chainId_validated (w : Store) :
  reachable w → chainId_validated (state w).
Proof.
  induction 1 as [arrs|w e Hw IH]; [done|].
  rewrite after_eq. destruct e as [|stateUpdate| |n|l arr]; cbn; try done.
  - destruct (validUpdate stateUpdate w) eqn:Hv.
    + rewrite update_valid by done. cbn. intros c. cbn.
      unfold WalletStore.validUpdate in Hv.
      apply andb_true_iff in Hv as [Hc _]. unfold chainIdPasses in Hc.
      destruct (u_chainId stateUpdate) as [c'|]; cbn in *.
      * by intros [= <-].
      * apply IH.
    + by destruct (update_invalid _ _ Hv) as (arrs & ->).
  - rewrite endConnection_eq. cbn. by destruct (_ =? _)%N.
Qed.

(** *** The connection token *)

(** C1.  [startConnection] sets [isConnecting] and returns a closure.
    Whatever happens to the store afterwards, calling the closure returns
    and: when none of the events since was a lifecycle event (a
    [startConnection], an [update] that was carried out, a [resetState]),
    it sets [isConnecting] to false and changes nothing else; when one was,
    it leaves the store as it is.  In particular, after two
    [startConnection] in a row the first closure changes nothing, with
    [isConnecting] still true, and the second one clears it. *)
Theorem endConnection_token (w : Store) (es : list Event) :
  (∃ endConnection w1,
     startConnection w = (inr endConnection, w1)
     ∧ isConnecting (state w1) = true
     ∧ endConnection (run es w1) =
       (inr tt,
        if quiet es w1
        then {| state := {| chainId := chainId (state (run es w1));
                            accounts := accounts (state (run es w1));
                            isConnecting := false |};
                nullifier := nullifier (run es w1);
                arrays := arrays (run es w1) |}
        else run es w1))
  ∧ (∃ endConnection1 w1 endConnection2 w2,
       startConnection w = (inr endConnection1, w1)
       ∧ startConnection w1 = (inr endConnection2, w2)
       ∧ isConnecting (state w2) = true
       ∧ endConnection1 w2 = (inr tt, w2)
       ∧ (∃ w3, endConnection2 w2 = (inr tt, w3)
            ∧ isConnecting (state w3) = false)
       ∧ (∃ w3, endConnection2 (endConnection1 w2).2 = (inr tt, w3)
            ∧ isConnecting (state w3) = false)).
Proof.
  split.
  - eexists _, _. rewrite startConnection_eq. split; [done|]. split; [done|].
    rewrite endConnection_eq. f_equal.
    set (w1 := {| state := _ |}).
    destruct (quiet es w1) eqn:Hq.
    + rewrite (nullifier_run_quiet _ _ Hq). cbn. by rewrite N.eqb_refl.
    + pose proof (nullifier_run_loud _ _ Hq) as Hlt. cbn in Hlt.
      destruct (N.eqb_spec (nullifier (run es w1)) (nullifier w + 1));
        [lia|done].
  - eexists _, _, _, _. rewrite !startConnection_eq.
    split; [done|]. split; [done|]. split; [done|].
    rewrite !endConnection_eq. cbn.
    destruct (N.eqb_spec (nullifier w + 1 + 1) (nullifier w + 1)); [lia|].
    cbn. rewrite !N.eqb_refl. split; [done|].
    split; (eexists; split; [reflexivity|done]).
Qed.

(** C10.  An [update] that fails validation throws [InvalidChainId], or
    [InvalidAccount] when the chain id was not the reason, and leaves
    snapshot and nullifier as they were, so that the closure of a
    [startConnection] made before it still clears [isConnecting]. *)
Theorem failed_update_keeps_token (w w1 : Store) (stateUpdate : StateUpdate)
    (endConnection : Act unit) :
  startConnection w = (inr endConnection, w1) →
  validUpdate stateUpdate w1 = false →
  ∃ w2 w3,
    update stateUpdate w1 =
      (inl (if chainIdPasses stateUpdate then InvalidAccount
            else InvalidChainId), w2)
    ∧ state w2 = state w1
    ∧ nullifier w2 = nullifier w1
    ∧ isConnecting (state w2) = true
    ∧ endConnection w2 = (inr tt, w3)
    ∧ isConnecting (state w3) = false
    ∧ chainId (state w3) = chainId (state w)
    ∧ accounts (state w3) = accounts (state w).
Proof.
  rewrite startConnection_eq. intros [= <- <-] Hbad.
  destruct (update_invalid _ _ Hbad) as (arrs & ->).
  eexists _, _. split; [done|]. split; [done|]. split; [done|].
  split; [done|]. rewrite endConnection_eq. cbn. by rewrite N.eqb_refl.
Qed.

(** *** Reconciliation *)

(** C3.  In a store that is connecting, an [update] that passes validation
    returns, merges the fields it was given over the snapshot, and clears
    [isConnecting] in that same step exactly when both [chainId] and
    [accounts] are defined after the merge; when one of them is still
    undefined, [isConnecting] stays true. *)
Theorem update_ends_connecting (w : Store) (stateUpdate : StateUpdate) :
  reachable w →
  isConnecting (state w) = true →
  validUpdate stateUpdate w = true →
  ∃ w',
    update stateUpdate w = (inr tt, w')
    ∧ chainId (state w') =
        nullish (u_chainId stateUpdate) (chainId (state w))
    ∧ accounts (state w') =
        nullish (u_accounts stateUpdate) (accounts (state w))
    ∧ (is_Some (chainId (state w')) → is_Some (accounts (state w')) →
       isConnecting (state w') = false)
    ∧ (chainId (state w') = None ∨ accounts (state w') = None →
       isConnecting (state w') = true).
Proof.
  intros Hreach Hconn Hvalid. eexists. rewrite update_valid by done.
  split; [done|]. cbn. split; [done|]. split; [done|].
  rewrite Hconn. cbn.
  assert (∀ c, nullish (u_chainId stateUpdate) (chainId (state w)) = Some c →
               truthy c = true) as Htruthy.
  { intros c Hc. apply positive_integer_truthy.
    unfold WalletStore.validUpdate in Hvalid.
    apply andb_true_iff in Hvalid as [Hchain _].
    unfold chainIdPasses in Hchain.
    destruct (u_chainId stateUpdate) as [c'|]; cbn in *.
    - by injection Hc as <-.
    - by apply (reachable_chainId_validated _ Hreach). }
  destruct (nullish (u_chainId stateUpdate) (chainId (state w))) as [c|];
    cbn.
  - rewrite (Htruthy c eq_refl). cbn.
    destruct (nullish (u_accounts stateUpdate) (accounts (state w))) as [l|].
    + rewrite bool_decide_eq_true_2 by by eexists. split; [done|].
      by intros [|].
    + rewrite bool_decide_eq_false_2 by by intros [??]. split; [|done].
      by intros _ [??].
  - split; [by intros [??]|done].
Qed.

(** *** Validation *)

(** C4, as the code has it.  [update] validates before it changes the
    snapshot and the nullifier, and it validates the accounts by writing
    what [validateAccount] returns into the given array.  A chain id that
    is not a positive integer makes it throw [InvalidChainId] with nothing
    changed at all.  An account that is not well formed makes it throw
    [InvalidAccount]: the snapshot and the nullifier are as before, and the
    only trace is in the array that was passed, where the accounts before
    the offending one have been replaced by their normal forms (no trace at
    all when these were normal already); a reader of the store finds the
    accounts it found before unless the array that was passed is the one
    the snapshot holds.  No throw happens otherwise, and every throw leaves
    snapshot and nullifier untouched.  An update that passes validation
    returns, and the snapshot then holds the given chain id and the given
    array where they were given and the former ones where they were not;
    the elements of the given array, which a reader of the store then
    finds, are the normal forms of the given accounts, which are the given
    accounts themselves when these are normal already. *)
Theorem update_validates_first (w : Store) (stateUpdate : StateUpdate) :
  (∀ c, u_chainId stateUpdate = Some c →
        isInteger c && isPositive c = false →
        update stateUpdate w = (inl InvalidChainId, w))
  ∧ (∀ l pre a post,
       chainIdPasses stateUpdate = true →
       u_accounts stateUpdate = Some l →
       elements_of l w = pre ++ a :: post →
       forallb wellFormedAccount pre = true →
       wellFormedAccount a = false →
       ∃ w', update stateUpdate w = (inl InvalidAccount, w')
         ∧ state w' = state w
         ∧ nullifier w' = nullifier w
         ∧ (∀ l', l' ≠ l → arrays w' !! l' = arrays w !! l')
         ∧ elements_of l w' = (normalizeAccount <$> pre) ++ a :: post
         ∧ (Forall (λ a, normalizeAccount a = a) pre → w' = w)
         ∧ (accounts (state w) ≠ Some l → accountsRead w' = accountsRead w)
         ∧ (accounts (state w) = Some l →
            accountsRead w' = Some ((normalizeAccount <$> pre) ++ a :: post)))
  ∧ (∀ e w', update stateUpdate w = (inl e, w') →
       validUpdate stateUpdate w = false
       ∧ e = (if chainIdPasses stateUpdate then InvalidAccount
              else InvalidChainId)
       ∧ state w' = state w ∧ nullifier w' = nullifier w)
  ∧ (validUpdate stateUpdate w = true →
     ∃ w', update stateUpdate w = (inr tt, w')
       ∧ chainId (state w') =
           nullish (u_chainId stateUpdate) (chainId (state w))
       ∧ accounts (state w') =
           nullish (u_accounts stateUpdate) (accounts (state w))
       ∧ (∀ l, u_accounts stateUpdate = Some l →
            elements_of l w' = normalizeAccount <$> elements_of l w
            ∧ (Forall (λ a, normalizeAccount a = a) (elements_of l w) →
               elements_of l w' = elements_of l w))
       ∧ (∀ l', u_accounts stateUpdate ≠ Some l' →
            arrays w' !! l' = arrays w !! l')
       ∧ accountsRead w' =
           match u_accounts stateUpdate with
           | Some l => Some (normalizeAccount <$> elements_of l w)
           | None => accountsRead w
           end).
Proof.
  split; [|split; [|split]].
  - intros c Hc Hbad. by apply (update_chainId_invalid _ c).
  - intros l pre a post Hchain Hl Harr Hpre Ha. eexists.
    rewrite (update_accounts_invalid _ l); try done; last first.
    { rewrite Harr, forallb_app. cbn. rewrite Ha. by rewrite andb_false_r. }
    set (w' := with_arrays _ w).
    assert (∀ l', l' ≠ l → arrays w' !! l' = arrays w !! l') as Hothers.
    { intros l' Hne. cbn. by rewrite lookup_alter_ne. }
    assert (elements_of l w' = (normalizeAccount <$> pre) ++ a :: post)
      as Hgiven.
    { unfold w'. rewrite Harr, (validatedPrefix_first _ _ _ Hpre Ha).
      unfold elements_of in *. cbn. rewrite lookup_alter_eq.
      destruct (arrays w !! l); [done|]. by destruct pre. }
    split; [done|]. split; [done|]. split; [done|].
    split; [exact Hothers|]. split; [exact Hgiven|]. split; [|split].
    + intros Hnormal. unfold w'.
      rewrite Harr, (validatedPrefix_first _ _ _ Hpre Ha). cbn.
      rewrite (fmap_fixed _ Hnormal). unfold elements_of in Harr.
      destruct (arrays w !! l) as [arr|] eqn:Hlook; cbn in Harr;
        [subst arr|by destruct pre].
      destruct w as [s n arrs]. unfold with_arrays. cbn in *. f_equal.
      apply map_eq. intros l'. destruct (decide (l = l')) as [<-|Hne].
      * by rewrite lookup_alter_eq, Hlook.
      * by rewrite lookup_alter_ne.
    + intros Hne. unfold accountsRead. fold w'.
      change (state w') with (state w).
      destruct (accounts (state w)) as [l0|]; [|done]. cbn. f_equal.
      unfold elements_of. rewrite Hothers; [done|congruence].
    + intros Hheld. unfold accountsRead. fold w'.
      change (state w') with (state w).
      rewrite Hheld. cbn. by rewrite Hgiven.
  - intros e w' Hthrow. destruct (validUpdate stateUpdate w) eqn:Hv.
    + by rewrite update_valid in Hthrow.
    + destruct (update_invalid _ _ Hv) as (arrs & Heq).
      rewrite Heq in Hthrow. by injection Hthrow as <- <-.
  - intros Hv. eexists. rewrite update_valid by done.
    split; [done|]. split; [done|]. split; [done|]. cbn. split; [|split].
    + intros l ->.
      assert (elements_of l
                {| state := reconcile stateUpdate (state w);
                   nullifier := nullifier w + 1;
                   arrays := alter (λ _, normalizeAccount <$> elements_of l w)
                               l (arrays w) |}
              = normalizeAccount <$> elements_of l w) as Hl.
      { unfold elements_of. cbn. rewrite lookup_alter_eq.
        by destruct (arrays w !! l). }
      split; [done|]. intros Hnormal. rewrite Hl. by apply fmap_fixed.
    + intros l' Hne. destruct (u_accounts stateUpdate) as [l|]; [|done].
      rewrite lookup_alter_ne; [done|congruence].
    + unfold accountsRead. cbn.
      destruct (u_accounts stateUpdate) as [l|]; cbn; [|done].
      f_equal. unfold elements_of. cbn. rewrite lookup_alter_eq.
      by destruct (arrays w !! l).
Qed.

(** ** Further properties of the store *)

(** *** Tokens over time *)

Lemma validatedPrefix_length (arr : list string) :
  length (validatedPrefix arr).1 = length arr.
Proof.
  induction arr as [|a arr IH]; [done|]. cbn.
  destruct (wellFormedAccount a); [|done].
  destruct (validatedPrefix arr) as [r ok]. cbn in *. by rewrite IH.
Qed.

Lemma resetState_eq (w : Store) :
  resetState w =
  (inr tt, {| state := DEFAULT_WALLET_STATE; nullifier := nullifier w + 1;
              arrays := arrays w |}).
Proof. reflexivity. Qed.

(** X1.  A closure whose token the nullifier has passed is dead for good:
    whatever happens to the store from then on, calling it changes
    nothing. *)
Theorem stale_token_stays_stale (w : Store) (n : N) (es : list Event) :
  (n < nullifier w)%N →
  endConnection n (run es w) = (inr tt, run es w).
Proof.
  intros Hstale. rewrite endConnection_eq.
  pose proof (nullifier_run_le es w) as Hle.
  destruct (N.eqb_spec (nullifier (run es w)) n); [lia|done].
Qed.

(** X2.  [resetState] returns, puts the snapshot back to
    [DEFAULT_WALLET_STATE] and leaves the arrays alone; every closure handed
    out before it (its token is at most the nullifier of that moment) is
    without effect after it, also after further events. *)
Theorem resetState_cancels (w : Store) (n : N) (es : list Event) :
  (n ≤ nullifier w)%N →
  ∃ w',
    resetState w = (inr tt, w')
    ∧ state w' = DEFAULT_WALLET_STATE
    ∧ arrays w' = arrays w
    ∧ endConnection n w' = (inr tt, w')
    ∧ endConnection n (run es w') = (inr tt, run es w').
Proof.
  intros Hn. eexists. rewrite resetState_eq.
  split; [reflexivity|]. split; [done|]. split; [done|].
  set (w' := {| state := _ |}).
  assert (nullifier w' = nullifier w + 1)%N as Hw' by done.
  split; rewrite endConnection_eq.
  - destruct (N.eqb_spec (nullifier w') n); [lia|done].
  - pose proof (nullifier_run_le es w') as Hle.
    destruct (N.eqb_spec (nullifier (run es w')) n); [lia|done].
Qed.

(** *** Who sets [isConnecting] *)

Lemma isConnecting_after (w : Store) (e : Event) :
  e ≠ EStartConnection →
  isConnecting (state (after w e)) = true → isConnecting (state w) = true.
Proof.
  intros Hne. rewrite after_eq.
  destruct e as [|stateUpdate| |n|l arr]; cbn; try done.
  - destruct (validUpdate stateUpdate w) eqn:Hv.
    + rewrite update_valid by done. cbn.
      by destruct (isConnecting (state w)).
    + by destruct (update_invalid _ _ Hv) as (arrs & ->).
  - rewrite endConnection_eq. cbn. by destruct (_ =? _)%N.
Qed.

(** X3.  Only [startConnection] turns [isConnecting] on: when it is true
    after events none of which is a [startConnection], it was true before
    them.  An [update] that says [isConnecting: true] is no exception. *)
Theorem only_startConnection_sets_isConnecting (w : Store)
    (es : list Event) :
  EStartConnection ∉ es →
  isConnecting (state (run es w)) = true →
  isConnecting (state w) = true.
Proof.
  revert w. induction es as [|e es IH]; intros w Hnone; [done|].
  rewrite run_cons. intros Hafter.
  apply (isConnecting_after w e).
  - intros ->. apply Hnone. by left.
  - apply IH; [|done]. intros Hin. apply Hnone. by right.
Qed.

(** *** Updates in parts, in vain and again *)

(** X4.  Reporting a chain id and the accounts in one [update], the chain
    id first and the accounts after, or the accounts first and the chain id
    after, leaves the same snapshot, which is not connecting, and the same
    arrays; the nullifier has moved once more when two updates were made. *)
Theorem update_in_parts (w : Store) (c : number) (l : loc)
    (b b1 b2 : option bool) :
  let both := {| u_chainId := Some c; u_accounts := Some l;
                 u_isConnecting := b |} in
  let chain := {| u_chainId := Some c; u_accounts := None;
                  u_isConnecting := b1 |} in
  let accts := {| u_chainId := None; u_accounts := Some l;
                  u_isConnecting := b2 |} in
  validUpdate both w = true →
  ∃ w12 w1 w2 w3 w4,
    update both w = (inr tt, w12)
    ∧ update chain w = (inr tt, w1) ∧ update accts w1 = (inr tt, w2)
    ∧ update accts w = (inr tt, w3) ∧ update chain w3 = (inr tt, w4)
    ∧ isConnecting (state w12) = false
    ∧ state w2 = state w12 ∧ arrays w2 = arrays w12
    ∧ state w4 = state w12 ∧ arrays w4 = arrays w12
    ∧ nullifier w2 = (nullifier w12 + 1)%N
    ∧ nullifier w4 = (nullifier w12 + 1)%N.
Proof.
  intros both chain accts Hvalid.
  assert (isInteger c && isPositive c = true
          ∧ forallb wellFormedAccount (elements_of l w) = true)
    as [Hc Hl] by by apply andb_true_iff in Hvalid.
  pose proof (positive_integer_truthy c Hc) as Htruthy.
  assert (validUpdate chain w = true) as Hchain.
  { unfold WalletStore.validUpdate, chainIdPasses. cbn. by rewrite Hc. }
  assert (validUpdate accts w = true) as Haccts by done.
  eexists _, _, _, _, _.
  split; [exact (update_valid both w Hvalid)|].
  split; [exact (update_valid chain w Hchain)|].
  split; [by apply update_valid|].
  split; [exact (update_valid accts w Haccts)|].
  split.
  { apply update_valid. unfold WalletStore.validUpdate, chainIdPasses. cbn.
    by rewrite Hc. }
  cbn. rewrite Htruthy.
  assert (∀ s, reconcile accts (reconcile chain s) = reconcile both s
               ∧ reconcile chain (reconcile accts s) = reconcile both s)
    as Hreconcile.
  { intros [c0 a0 connecting]. unfold reconcile. cbn. rewrite Htruthy.
    destruct connecting, c0 as [c0|], a0; cbn; try destruct (truthy c0);
      cbn; rewrite ?Htruthy; done. }
  split; [by destruct (isConnecting (state w))|].
  split; [apply Hreconcile|]. split; [done|].
  split; [apply Hreconcile|]. done.
Qed.

(** X5.  An [update] that gives neither a chain id nor accounts returns
    and keeps chain id, accounts and arrays, and yet it is a lifecycle
    event: the closure of a [startConnection] made just before it is
    without effect after it, and [isConnecting] stays true unless the
    store had both a chain id and accounts already. *)
Theorem empty_update_cancels (w : Store) (b : option bool) :
  ∃ endConnection w1 w2,
    startConnection w = (inr endConnection, w1)
    ∧ update {| u_chainId := None; u_accounts := None;
                u_isConnecting := b |} w1 = (inr tt, w2)
    ∧ chainId (state w2) = chainId (state w)
    ∧ accounts (state w2) = accounts (state w)
    ∧ arrays w2 = arrays w
    ∧ nullifier w2 = (nullifier w1 + 1)%N
    ∧ endConnection w2 = (inr tt, w2)
    ∧ isConnecting (state w2) =
      negb (from_option truthy false (chainId (state w))
            && bool_decide (is_Some (accounts (state w)))).
Proof.
  eexists _, _, _. rewrite startConnection_eq. split; [done|].
  rewrite update_valid by done. split; [done|]. cbn.
  split; [done|]. split; [done|]. split; [done|]. split; [done|]. split.
  - rewrite endConnection_eq. cbn.
    destruct (N.eqb_spec (nullifier w + 1 + 1) (nullifier w + 1)); [lia|done].
  - by destruct (from_option truthy false (chainId (state w))
                 && bool_decide (is_Some (accounts (state w)))).
Qed.

(** X6.  Validation looks at the update and at the array it was given
    only: in two stores with the same arrays an [update] ends the same
    way, returning in both or throwing the same error in both, and leaves
    the same arrays. *)
Theorem validation_ignores_the_snapshot (w w' : Store)
    (stateUpdate : StateUpdate) :
  arrays w = arrays w' →
  (update stateUpdate w).1 = (update stateUpdate w').1
  ∧ arrays (update stateUpdate w).2 = arrays (update stateUpdate w').2.
Proof.
  intros Harrays.
  assert (∀ l, elements_of l w = elements_of l w') as Helements.
  { intros l. unfold elements_of. by rewrite Harrays. }
  assert (validUpdate stateUpdate w = validUpdate stateUpdate w') as Hsame.
  { unfold WalletStore.validUpdate.
    destruct (u_accounts stateUpdate) as [l|]; cbn; [|done].
    by rewrite Helements. }
  destruct (validUpdate stateUpdate w) eqn:Hv.
  - rewrite !update_valid by done. cbn. split; [done|].
    destruct (u_accounts stateUpdate) as [l|]; [|done].
    by rewrite Helements, Harrays.
  - unfold WalletStore.validUpdate in Hv.
    destruct (chainIdPasses stateUpdate) eqn:Hc.
    + destruct (u_accounts stateUpdate) as [l|] eqn:Hl; cbn in Hv; [|done].
      rewrite !(update_accounts_invalid _ l) by by rewrite <- ?Helements.
      cbn. by rewrite Helements, Harrays.
    + unfold chainIdPasses in Hc.
      destruct (u_chainId stateUpdate) as [c|] eqn:Hc'; cbn in Hc; [|done].
      by rewrite !(update_chainId_invalid _ c).
Qed.

(** X7.  Whatever the update and however it ends, [update] keeps the
    length of every array and neither adds nor removes an array: what it
    writes, it writes over elements that are there. *)
Theorem update_keeps_lengths (w : Store) (stateUpdate : StateUpdate)
    (l : loc) :
  length (elements_of l (update stateUpdate w).2)
    = length (elements_of l w)
  ∧ dom (arrays (update stateUpdate w).2) = dom (arrays w).
Proof.
  assert (∀ (f : list string) (l0 : loc),
    length f = length (elements_of l0 w) →
    length (default [] (alter (λ _, f) l0 (arrays w) !! l))
      = length (elements_of l w)) as Hlen.
  { intros f l0 Hf. unfold elements_of in *.
    destruct (decide (l0 = l)) as [->|Hne].
    - rewrite lookup_alter_eq. by destruct (arrays w !! l).
    - by rewrite lookup_alter_ne. }
  destruct (validUpdate stateUpdate w) eqn:Hv.
  - rewrite update_valid by done. unfold elements_of at 1. cbn.
    destruct (u_accounts stateUpdate) as [l0|]; [|done]. split.
    + apply Hlen. by rewrite length_fmap.
    + apply dom_alter_L.
  - unfold WalletStore.validUpdate in Hv.
    destruct (chainIdPasses stateUpdate) eqn:Hc.
    + destruct (u_accounts stateUpdate) as [l0|] eqn:Hl; cbn in Hv; [|done].
      rewrite (update_accounts_invalid _ l0) by done.
      unfold elements_of at 1. cbn. split.
      * apply Hlen. apply validatedPrefix_length.
      * apply dom_alter_L.
    + unfold chainIdPasses in Hc.
      destruct (u_chainId stateUpdate) as [c|] eqn:Hc'; cbn in Hc; [|done].
      by rewrite (update_chainId_invalid _ c).
Qed.

(** X8.  When the normal form of a well-formed account is well formed and
    normal, an update that passed validation passes it again when it is
    repeated, and the repetition changes neither the snapshot nor the
    arrays; only the nullifier moves. *)
Theorem update_again (w : Store) (stateUpdate : StateUpdate) :
  (∀ a, wellFormedAccount a = true →
        wellFormedAccount (normalizeAccount a) = true
        ∧ normalizeAccount (normalizeAccount a) = normalizeAccount a) →
  validUpdate stateUpdate w = true →
  ∃ w1 w2,
    update stateUpdate w = (inr tt, w1)
    ∧ update stateUpdate w1 = (inr tt, w2)
    ∧ state w2 = state w1
    ∧ arrays w2 = arrays w1
    ∧ nullifier w2 = (nullifier w + 2)%N.
Proof.
  intros Hnormal Hvalid. eexists _, _.
  rewrite (update_valid _ _ Hvalid). split; [done|].
  set (w1 := {| state := _ |}).
  assert (∀ l, u_accounts stateUpdate = Some l →
               elements_of l w1 = normalizeAccount <$> elements_of l w)
    as Helements.
  { intros l Hl. unfold w1, elements_of. cbn. rewrite Hl.
    rewrite lookup_alter_eq. unfold elements_of.
    by destruct (arrays w !! l). }
  assert (∀ arr, forallb wellFormedAccount arr = true →
                 forallb wellFormedAccount (normalizeAccount <$> arr) = true
                 ∧ normalizeAccount <$> (normalizeAccount <$> arr)
                   = normalizeAccount <$> arr) as Hlist.
  { induction arr as [|a arr IH]; [done|]. cbn.
    intros [Ha Harr]%andb_true_iff.
    destruct (Hnormal a Ha) as [-> ->]. destruct (IH Harr) as [-> Heq].
    split; [done|]. f_equal. exact Heq. }
  assert (validUpdate stateUpdate w1 = true) as Hvalid1.
  { unfold WalletStore.validUpdate in *.
    apply andb_true_iff in Hvalid as [-> Hl]. cbn.
    destruct (u_accounts stateUpdate) as [l|] eqn:Heq; cbn in *; [|done].
    rewrite (Helements l eq_refl). by apply Hlist. }
  rewrite (update_valid _ _ Hvalid1). split; [done|]. cbn. split; [|split].
  - unfold reconcile. cbn.
    destruct (u_chainId stateUpdate) as [c|], (u_accounts stateUpdate);
      cbn; f_equal;
      by destruct (isConnecting (state w)), (chainId (state w)) as [c0|],
           (accounts (state w)); cbn; try destruct (truthy c); cbn;
         try destruct (truthy c0); cbn.
  - destruct (u_accounts stateUpdate) as [l|] eqn:Hl; [|done].
    pose proof (Helements l eq_refl) as He. unfold w1 in He. rewrite He.
    clear He. apply map_eq. intros l'.
    destruct (decide (l = l')) as [<-|Hne].
    + rewrite !lookup_alter_eq. unfold elements_of in *.
      destruct (arrays w !! l) as [arr|] eqn:Harr; cbn; [|done].
      apply andb_true_iff in Hvalid as [_ Hwf]. rewrite Hl in Hwf.
      cbn in Hwf. unfold elements_of in Hwf. rewrite Harr in Hwf.
      cbn in Hwf. f_equal. by apply Hlist.
    + by rewrite !lookup_alter_ne.
  - lia.
Qed.

End Actions.

(** *** The definitions at work on sample values *)

(** 1 and 4 = 1 * 2^2 pass; 0, -1, 1.5 = 3 * 2^-1, [NaN] and [Infinity] do
    not. *)
Example validateChainId_samples :
  validateChainId (ofZ 1) = inr tt
  ∧ validateChainId (S754_finite false 1 2) = inr tt
  ∧ validateChainId (ofZ 0) = inl InvalidChainId
  ∧ validateChainId (ofZ (-1)) = inl InvalidChainId
  ∧ validateChainId (S754_finite false 3 (-1)) = inl InvalidChainId
  ∧ validateChainId S754_nan = inl InvalidChainId
  ∧ validateChainId (S754_infinity false) = inl InvalidChainId.
Proof. repeat split. Qed.

(** A connection attempt that is overtaken by a reset: the closure of the
    attempt finds the nullifier moved and leaves the store alone. *)
Example overtaken_attempt_sample :
  let w1 := (startConnection sampleStore).2 in
  let w2 := (resetState w1).2 in
  isConnecting (state w1) = true
  ∧ nullifier w1 = 1%N
  ∧ nullifier w2 = 2%N
  ∧ endConnection 1 w2 = (inr tt, w2)
  ∧ isConnecting (state (endConnection 1 w1).2) = false.
Proof. repeat split. Qed.

(** *** The statements at work on a sample store *)

Lemma failed_update_keeps_token_witness :
  let w1 := (startConnection sampleStore).2 in
  let stateUpdate :=
    {| u_chainId := Some (ofZ 5); u_accounts := Some 1;
       u_isConnecting := None |} in
  startConnection sampleStore = (inr (endConnection 1), w1)
  ∧ validUpdate sampleWellFormed stateUpdate w1 = false
  ∧ ∃ w2 w3,
      update sampleWellFormed sampleNormalize stateUpdate w1
        = (inl InvalidAccount, w2)
      ∧ nullifier w2 = nullifier w1
      ∧ endConnection 1 w2 = (inr tt, w3)
      ∧ isConnecting (state w3) = false.
Proof.
  intros w1 stateUpdate.
  split; [reflexivity|]. split; [reflexivity|].
  destruct (failed_update_keeps_token sampleWellFormed sampleNormalize
              sampleStore w1 stateUpdate (endConnection 1) eq_refl eq_refl)
    as (w2 & w3 & Hupdate & _ & Hnullifier & _ & Hend & Hcleared & _).
  exists w2, w3. split; [exact Hupdate|]. split; [exact Hnullifier|].
  split; [exact Hend|exact Hcleared].
Defined.

Lemma update_ends_connecting_witness :
  let w := after sampleWellFormed sampleNormalize sampleStore
             EStartConnection in
  let stateUpdate :=
    {| u_chainId := Some (ofZ 5); u_accounts := Some 0;
       u_isConnecting := None |} in
  reachable sampleWellFormed sampleNormalize w
  ∧ isConnecting (state w) = true
  ∧ validUpdate sampleWellFormed stateUpdate w = true
  ∧ ∃ w',
      update sampleWellFormed sampleNormalize stateUpdate w = (inr tt, w')
      ∧ chainId (state w') = Some (ofZ 5)
      ∧ accounts (state w') = Some 0
      ∧ isConnecting (state w') = false.
Proof.
  intros w stateUpdate.
  assert (reachable sampleWellFormed sampleNormalize w) as Hreach.
  { apply reachable_after, reachable_created. }
  split; [exact Hreach|]. split; [reflexivity|]. split; [reflexivity|].
  destruct (update_ends_connecting sampleWellFormed sampleNormalize w
              stateUpdate Hreach eq_refl eq_refl)
    as (w' & Hupdate & Hchain & Haccounts & Hclear & _).
  exists w'. split; [exact Hupdate|]. split; [exact Hchain|].
  split; [exact Haccounts|].
  apply Hclear; [rewrite Hchain|rewrite Haccounts]; eexists; reflexivity.
Defined.

(** C4, two cases the claim gets wrong.  A valid update gives the accounts
    ["0xAB"; "0xcd"]: a reader of the store then finds their normal forms,
    not the accounts as given.  Later the caller puts an ill-formed second
    account into the array the store holds and passes that array again:
    the update fails with [InvalidAccount], and a reader of the store finds
    the first account changed by the failed call. *)
Lemma update_rewrites_the_given_array :
  let given :=
    {| u_chainId := Some (ofZ 5); u_accounts := Some 0;
       u_isConnecting := None |} in
  let held :=
    run sampleWellFormed sampleNormalize
      [EUpdate given; EArrayWrite 0 ["0xAB"; "nope"]] sampleStore in
  (elements_of 0 sampleStore = ["0xAB"; "0xcd"]
   ∧ ∃ w', update sampleWellFormed sampleNormalize given sampleStore
             = (inr tt, w')
       ∧ accountsRead w' = Some ["0xab"; "0xcd"]
       ∧ accountsRead w' ≠ Some (elements_of 0 sampleStore))
  ∧ (accountsRead held = Some ["0xAB"; "nope"]
     ∧ ∃ w', update sampleWellFormed sampleNormalize given held
               = (inl InvalidAccount, w')
         ∧ state w' = state held
         ∧ accountsRead w' = Some ["0xab"; "nope"]
         ∧ accountsRead w' ≠ accountsRead held).
Proof.
  intros given held. split.
  - split; [reflexivity|]. eexists. split; [reflexivity|].
    split; [reflexivity|]. vm_compute. discriminate.
  - split; [reflexivity|]. eexists. split; [reflexivity|].
    split; [reflexivity|]. split; [reflexivity|]. vm_compute. discriminate.
Qed.

Lemma update_validates_first_witness :
  let bad_chain :=
    {| u_chainId := Some (ofZ 0); u_accounts := Some 1;
       u_isConnecting := None |} in
  let bad_account :=
    {| u_chainId := Some (ofZ 5); u_accounts := Some 1;
       u_isConnecting := None |} in
  let good :=
    {| u_chainId := Some (ofZ 5); u_accounts := Some 0;
       u_isConnecting := None |} in
  update sampleWellFormed sampleNormalize bad_chain sampleStore
    = (inl InvalidChainId, sampleStore)
  ∧ (∃ w', update sampleWellFormed sampleNormalize bad_account sampleStore
             = (inl InvalidAccount, w')
       ∧ state w' = state sampleStore
       ∧ nullifier w' = nullifier sampleStore
       ∧ elements_of 0 w' = ["0xAB"; "0xcd"]
       ∧ elements_of 1 w' = ["0xef"; "nope"; "0xAA"])
  ∧ (∃ w', update sampleWellFormed sampleNormalize good sampleStore
             = (inr tt, w')
       ∧ chainId (state w') = Some (ofZ 5)
       ∧ accounts (state w') = Some 0
       ∧ elements_of 0 w' = ["0xab"; "0xcd"]
       ∧ accountsRead w' = Some ["0xab"; "0xcd"])
  ∧ (let held :=
       run sampleWellFormed sampleNormalize
         [EUpdate good; EArrayWrite 0 ["0xAB"; "nope"]] sampleStore in
     accounts (state held) = Some 0
     ∧ ∃ w', update sampleWellFormed sampleNormalize good held
               = (inl InvalidAccount, w')
         ∧ state w' = state held
         ∧ accountsRead w' = Some ["0xab"; "nope"]).
Proof.
  intros bad_chain bad_account good. split; [|split; [|split]].
  - exact (proj1 (update_validates_first sampleWellFormed sampleNormalize
                    sampleStore bad_chain) (ofZ 0) eq_refl eq_refl).
  - destruct (update_validates_first sampleWellFormed sampleNormalize
                sampleStore bad_account) as (_ & Haccount & _).
    destruct (Haccount 1 ["0xEF"] "nope" ["0xAA"] eq_refl eq_refl eq_refl
                eq_refl eq_refl)
      as (w' & Hupdate & Hstate & Hnullifier & Hothers & Hgiven & _).
    exists w'. split; [exact Hupdate|]. split; [exact Hstate|].
    split; [exact Hnullifier|]. split; [|exact Hgiven].
    unfold elements_of. rewrite (Hothers 0) by discriminate. reflexivity.
  - destruct (update_validates_first sampleWellFormed sampleNormalize
                sampleStore good) as (_ & _ & _ & Hgood).
    destruct (Hgood eq_refl)
      as (w' & Hupdate & Hchain & Haccounts & Hgiven & _ & Hread).
    exists w'. split; [exact Hupdate|]. split; [exact Hchain|].
    split; [exact Haccounts|]. split; [exact (proj1 (Hgiven 0 eq_refl))|].
    exact Hread.
  - intros held. split; [reflexivity|].
    destruct (update_validates_first sampleWellFormed sampleNormalize
                held good) as (_ & Haccount & _).
    destruct (Haccount 0 ["0xAB"] "nope" [] eq_refl eq_refl eq_refl
                eq_refl eq_refl)
      as (w' & Hupdate & Hstate & _ & _ & _ & _ & _ & Hheld).
    exists w'. split; [exact Hupdate|]. split; [exact Hstate|].
    exact (Hheld eq_refl).
Defined.

(** *** The further properties at work on the sample store *)

Lemma sampleNormalize_normal (a : string) :
  sampleWellFormed a = true →
  sampleWellFormed (sampleNormalize a) = true
  ∧ sampleNormalize (sampleNormalize a) = sampleNormalize a.
Proof.
  intros Hwf. split.
  - unfold sampleWellFormed in *. destruct a as [|c1 a]; [done|].
    destruct c1 as [[] [] [] [] [] [] [] []]; try discriminate Hwf.
    destruct a as [|c2 a]; [done|].
    destruct c2 as [[] [] [] [] [] [] [] []]; try discriminate Hwf.
    by destruct a.
  - clear Hwf. induction a as [|c a IH]; [done|].
    cbn [sampleNormalize]. rewrite IH. f_equal.
    by destruct c as [[] [] [] [] [] [] [] []].
Qed.

Lemma stale_token_stays_stale_witness :
  let w := (startConnection (startConnection sampleStore).2).2 in
  let es := [EUpdate {| u_chainId := Some (ofZ 5); u_accounts := Some 0;
                        u_isConnecting := None |};
             EEndConnection 2] in
  (1 < nullifier w)%N
  ∧ endConnection 1 (run sampleWellFormed sampleNormalize es w)
    = (inr tt, run sampleWellFormed sampleNormalize es w).
Proof.
  intros w es. split; [reflexivity|].
  apply (stale_token_stays_stale sampleWellFormed sampleNormalize w 1 es).
  reflexivity.
Defined.

Lemma resetState_cancels_witness :
  let w := (startConnection sampleStore).2 in
  (1 ≤ nullifier w)%N
  ∧ ∃ w', resetState w = (inr tt, w')
      ∧ state w' = DEFAULT_WALLET_STATE
      ∧ endConnection 1 w' = (inr tt, w').
Proof.
  intros w. split; [reflexivity|].
  destruct (resetState_cancels sampleWellFormed sampleNormalize w 1 []
              (N.le_refl 1))
    as (w' & Hreset & Hstate & _ & Hend & _).
  exists w'. split; [exact Hreset|]. split; [exact Hstate|exact Hend].
Defined.

Lemma only_startConnection_sets_isConnecting_witness :
  let w := (startConnection sampleStore).2 in
  let es := [EEndConnection 7;
             EUpdate {| u_chainId := Some (ofZ 5); u_accounts := None;
                        u_isConnecting := Some true |}] in
  (EStartConnection ∉ es)
  ∧ isConnecting (state (run sampleWellFormed sampleNormalize es w)) = true
  ∧ isConnecting (state w) = true.
Proof.
  intros w es.
  assert (EStartConnection ∉ es) as Hnone.
  { intros Hin.
    repeat (apply elem_of_cons in Hin as [Hin|Hin]; [discriminate Hin|]).
    by apply elem_of_nil in Hin. }
  split; [exact Hnone|]. split; [reflexivity|].
  apply (only_startConnection_sets_isConnecting sampleWellFormed
           sampleNormalize w es Hnone).
  reflexivity.
Defined.

Lemma update_in_parts_witness :
  let w := (startConnection sampleStore).2 in
  validUpdate sampleWellFormed
    {| u_chainId := Some (ofZ 5); u_accounts := Some 0;
       u_isConnecting := None |} w = true
  ∧ ∃ w12 w1 w2,
      update sampleWellFormed sampleNormalize
        {| u_chainId := Some (ofZ 5); u_accounts := Some 0;
           u_isConnecting := None |} w = (inr tt, w12)
      ∧ update sampleWellFormed sampleNormalize
          {| u_chainId := Some (ofZ 5); u_accounts := None;
             u_isConnecting := None |} w = (inr tt, w1)
      ∧ isConnecting (state w1) = true
      ∧ update sampleWellFormed sampleNormalize
          {| u_chainId := None; u_accounts := Some 0;
             u_isConnecting := None |} w1 = (inr tt, w2)
      ∧ state w2 = state w12
      ∧ isConnecting (state w2) = false.
Proof.
  intros w. split; [reflexivity|].
  destruct (update_in_parts sampleWellFormed sampleNormalize w (ofZ 5) 0
              None None None eq_refl)
    as (w12 & w1 & w2 & w3 & w4 & Hboth & Hchain & Haccts & _ & _
        & Hdone & Hstate & _).
  exists w12, w1, w2. split; [exact Hboth|]. split; [exact Hchain|].
  split; [by injection Hchain as <-|]. split; [exact Haccts|].
  split; [exact Hstate|]. by rewrite Hstate.
Defined.

Lemma validation_ignores_the_snapshot_witness :
  let w' := (startConnection sampleStore).2 in
  let stateUpdate := {| u_chainId := Some (ofZ 5); u_accounts := Some 1;
                        u_isConnecting := None |} in
  arrays sampleStore = arrays w'
  ∧ (update sampleWellFormed sampleNormalize stateUpdate sampleStore).1
    = inl InvalidAccount
  ∧ (update sampleWellFormed sampleNormalize stateUpdate w').1
    = inl InvalidAccount.
Proof.
  intros w' stateUpdate. split; [reflexivity|]. split; [reflexivity|].
  rewrite <- (proj1 (validation_ignores_the_snapshot sampleWellFormed
                       sampleNormalize sampleStore w' stateUpdate eq_refl)).
  reflexivity.
Defined.

Lemma update_again_witness :
  let stateUpdate := {| u_chainId := Some (ofZ 5); u_accounts := Some 0;
                        u_isConnecting := None |} in
  validUpdate sampleWellFormed stateUpdate sampleStore = true
  ∧ ∃ w1 w2,
      update sampleWellFormed sampleNormalize stateUpdate sampleStore
        = (inr tt, w1)
      ∧ update sampleWellFormed sampleNormalize stateUpdate w1 = (inr tt, w2)
      ∧ state w2 = state w1
      ∧ arrays w2 = arrays w1
      ∧ elements_of 0 w2 = ["0xab"; "0xcd"].
Proof.
  intros stateUpdate. split; [reflexivity|].
  destruct (update_again sampleWellFormed sampleNormalize sampleStore
              stateUpdate sampleNormalize_normal eq_refl)
    as (w1 & w2 & Hfirst & Hsecond & Hstate & Harrays & _).
  exists w1, w2. split; [exact Hfirst|]. split; [exact Hsecond|].
  split; [exact Hstate|]. split; [exact Harrays|].
  unfold elements_of. rewrite Harrays. by injection Hfirst as <-.
Defined.

End StoreFacts.


(** * Properties of the wallet proxy *)

Module ProxyFacts.

Import JsFacts WalletProxy.

Section Proxy.

Context {E : Type}.

Implicit Types (wallets ws : list (Wallet E)) (wallet first : Wallet E).
Implicit Types (w : World E) (e : Env E) (args vs : list Value).
Implicit Types (cell : MemoCell (option WalletName) (Wallet E)).

(** *** The combined hooks *)

Lemma foldl_insert_lookup {V} (f : string → V) (ks : list string)
    (m : gmap string V) (k : string) :
  foldl (λ acc k', <[k' := f k']> acc) m ks !! k =
  if decide (k ∈ ks) then Some (f k) else m !! k.
Proof.
  revert m. induction ks as [|k' ks IH]; intros m; cbn.
  - by rewrite decide_False by apply not_elem_of_nil.
  - rewrite IH. destruct (decide (k ∈ ks)) as [Hin|Hnin].
    + by rewrite decide_True by by right.
    + destruct (decide (k = k')) as [->|Hne].
      * rewrite decide_True by by left. by rewrite lookup_insert_eq.
      * rewrite decide_False by (rewrite elem_of_cons; tauto).
        by rewrite lookup_insert_ne.
Qed.

Lemma elem_of_sortedKeys {V} (o : gmap string V) (k : string) :
  k ∈ sortedKeys o ↔ is_Some (o !! k).
Proof.
  unfold sortedKeys. rewrite merge_sort_Permutation, elem_of_elements.
  apply elem_of_dom.
Qed.

(** The combined hooks have the names of the hooks of the first wallet,
    and under each name the combination for that name. *)
Lemma getCombinedHooks_lookup wallets first (hookName : string) :
  wallets !! 0 = Some first →
  ∃ combinedHooks,
    getCombinedHooks wallets = inr combinedHooks
    ∧ combinedHooks !! hookName =
      if decide (is_Some (hooks first !! hookName))
      then Some (combinedHook wallets hookName) else None.
Proof.
  intros Hfirst. unfold getCombinedHooks. rewrite Hfirst. eexists.
  split; [done|]. rewrite foldl_insert_lookup.
  destruct (decide (is_Some (hooks first !! hookName))) as [Hin|Hnin].
  - by rewrite decide_True by by apply elem_of_sortedKeys.
  - by rewrite decide_False by by rewrite elem_of_sortedKeys.
Qed.

Lemma combinedHookLoop_eq (hookName : string) args
    (currentWalletName : option WalletName) ws :
  Forall (hookReturns hookName) ws →
  ∀ (out : Value) w,
  ∃ vs e' out',
    hooksCalled hookName args ws (env w) vs e'
    ∧ combinedHookLoop hookName args currentWalletName ws out w =
      (inr out',
       {| env := e';
          calls := calls w ++ ((λ wallet, HookCall (name wallet) hookName args)
                                 <$> ws);
          console := console w |})
    ∧ (∀ i wallet v,
         ws !! i = Some wallet → vs !! i = Some v →
         Some (name wallet) = currentWalletName →
         (∀ j wallet', i < j → ws !! j = Some wallet' →
                       Some (name wallet') ≠ currentWalletName) →
         out' = v)
    ∧ ((∀ wallet, wallet ∈ ws → Some (name wallet) ≠ currentWalletName) →
       out' = out).
Proof.
  induction 1 as [|wallet ws (hookFn & Hhook & Hret) _ IH]; intros out w.
  - exists [], (env w), out. split; [constructor|]. split.
    + cbn. rewrite app_nil_r. by destruct w.
    + split; [by intros i wallet v ?|done].
  - destruct (Hret args (env w)) as [v Hv].
    destruct (hookFn args (env w)) as [r e1] eqn:Hcall. cbn in Hv. subst r.
    set (w1 := {| env := e1;
                  calls := calls w ++ [HookCall (name wallet) hookName args];
                  console := console w |}).
    set (out1 := if bool_decide (Some (name wallet) = currentWalletName)
                 then v else out).
    destruct (IH out1 w1) as (vs & e' & out' & Hcalled & Hrun & Hlast & Hnone).
    exists (v :: vs), e', out'. split; [by econstructor|]. split.
    + cbn [combinedHookLoop]. rewrite Hhook.
      erewrite bind_returned; [|reflexivity].
      erewrite bind_returned; last first.
      { unfold invoke. rewrite Hcall. reflexivity. }
      fold w1 out1. rewrite Hrun. cbn. by rewrite <- app_assoc.
    + split.
      * intros [|i] wallet' v' Hw Hv' Hname Hlater; cbn in *.
        -- injection Hw as <-. injection Hv' as <-.
           rewrite Hnone.
           ++ unfold out1. by rewrite bool_decide_eq_true_2.
           ++ intros wallet'' [j Hj]%list_elem_of_lookup.
              apply (Hlater (S j)); [lia|done].
        -- apply (Hlast i wallet' v' Hw Hv' Hname).
           intros j wallet'' Hij. apply (Hlater (S j)). lia.
      * intros Hnot. rewrite Hnone.
        -- unfold out1. rewrite bool_decide_eq_false_2; [done|].
           apply Hnot. by left.
        -- intros wallet' Hin. apply Hnot. by right.
Qed.

(** C2.  When every registered wallet has the hook [hookName] and its calls
    return, the combined hooks hold a function under [hookName], and
    calling it returns after having called that hook of every wallet once,
    in registration order, with the arguments it was given.  The value it
    returns is the one returned by the last wallet whose name is the
    [currentWallet] the store held when the call began (the only such wallet
    when names are unique), and [undefined] when no wallet has that name. *)
Theorem combined_hook_calls_all wallets first (hookName : string) args w :
  wallets !! 0 = Some first →
  Forall (hookReturns hookName) wallets →
  ∃ combinedHooks merged vs e' out,
    getCombinedHooks wallets = inr combinedHooks
    ∧ combinedHooks !! hookName = Some merged
    ∧ hooksCalled hookName args wallets (env w) vs e'
    ∧ merged args w =
      (inr out,
       {| env := e';
          calls := calls w ++ ((λ wallet, HookCall (name wallet) hookName args)
                                 <$> wallets);
          console := console w |})
    ∧ (∀ i wallet v,
         wallets !! i = Some wallet → vs !! i = Some v →
         Some (name wallet) = currentWallet (store (env w)) →
         (∀ j wallet', i < j → wallets !! j = Some wallet' →
                       Some (name wallet') ≠ currentWallet (store (env w))) →
         out = v)
    ∧ (NoDup (name <$> wallets) →
       ∀ i wallet v,
         wallets !! i = Some wallet → vs !! i = Some v →
         Some (name wallet) = currentWallet (store (env w)) →
         out = v)
    ∧ ((∀ wallet, wallet ∈ wallets →
                  Some (name wallet) ≠ currentWallet (store (env w))) →
       out = undefined).
Proof.
  intros Hfirst Hhooks.
  destruct (getCombinedHooks_lookup wallets first hookName Hfirst)
    as (combinedHooks & Hcombined & Hlookup).
  rewrite decide_True in Hlookup; last first.
  { apply list_elem_of_lookup_2 in Hfirst.
    rewrite Forall_forall in Hhooks.
    destruct (Hhooks first Hfirst) as (hookFn & Hhook & _). by eexists. }
  destruct (combinedHookLoop_eq hookName args (currentWallet (store (env w)))
              wallets Hhooks undefined w)
    as (vs & e' & out & Hcalled & Hrun & Hlast & Hnone).
  exists combinedHooks, (combinedHook wallets hookName), vs, e', out.
  split; [done|]. split; [done|]. split; [done|]. split; [exact Hrun|].
  split; [exact Hlast|]. split; [|exact Hnone].
  intros Hnodup i wallet v Hi Hv Hname. apply (Hlast i wallet v Hi Hv Hname).
  intros j wallet' Hij Hj Hname'.
  assert (i = j); [|lia].
  apply (NoDup_lookup _ i j (name wallet) Hnodup).
  - by rewrite list_lookup_fmap, Hi.
  - rewrite list_lookup_fmap, Hj. cbn. congruence.
Qed.

(** *** The current wallet *)

Lemma find_name_None wallets (deps : option WalletName) :
  List.find (λ wallet, bool_decide (Some (name wallet) = deps)) wallets = None
  ↔ ∀ walletName, deps = Some walletName → walletName ∉ name <$> wallets.
Proof.
  induction wallets as [|wallet wallets IH]; cbn.
  - split; [|done]. intros _ walletName _. apply not_elem_of_nil.
  - case_bool_decide as Hname.
    + split; [done|]. intros Habsent.
      destruct (Habsent (name wallet)); [done|by left].
    + rewrite IH. split.
      * intros Habsent walletName -> [Heq|Hin]%elem_of_cons.
        -- by rewrite Heq in Hname.
        -- by apply (Habsent walletName).
      * intros Habsent walletName -> Hin. apply (Habsent walletName); [done|].
        by right.
Qed.

Lemma useCurrentWallet_hit wallets cell w (value : Wallet E) :
  cell = Some (currentWallet (store (env w)), value) →
  useCurrentWallet wallets cell w = (inr (value, cell), w).
Proof.
  intros ->. unfold useCurrentWallet, useStore.
  erewrite bind_returned; [|reflexivity]. unfold useMemo.
  by rewrite decide_True.
Qed.

Lemma useCurrentWallet_miss wallets first cell w :
  wallets !! 0 = Some first →
  ¬ memoFor (currentWallet (store (env w))) cell →
  useCurrentWallet wallets cell w =
  match List.find (λ wallet, bool_decide (Some (name wallet)
                                          = currentWallet (store (env w))))
                  wallets with
  | Some found =>
      (inr (found, Some (currentWallet (store (env w)), found)), w)
  | None =>
      (inr (first, Some (currentWallet (store (env w)), first)),
       with_store (λ s, {| currentWallet := Some (name first);
                           connectionId := connectionId s |}) w)
  end.
Proof.
  intros Hfirst Hmiss. unfold useCurrentWallet, useStore.
  erewrite bind_returned; [|reflexivity].
  set (cur := currentWallet (store (env w))) in *.
  set (factory := (_ ≫= _) : Js.M (World E) exn (Wallet E)).
  assert (factory w =
          match List.find (λ wallet, bool_decide (Some (name wallet) = cur))
                          wallets with
          | Some found => (inr found, w)
          | None =>
              (inr first,
               with_store (λ s, {| currentWallet := Some (name first);
                                   connectionId := connectionId s |}) w)
          end) as Hfactory.
  { unfold factory, wallets_0. rewrite Hfirst.
    destruct (List.find _ wallets); reflexivity. }
  assert (useMemo cell factory cur w =
          (value' ← factory; Js.ret (value', Some (cur, value'))) w) as ->.
  { unfold useMemo. destruct cell as [[deps value]|]; [|done].
    rewrite decide_False; [done|]. intros ->. apply Hmiss. by eexists. }
  destruct (List.find _ wallets) as [found|];
    by erewrite bind_returned by exact Hfactory.
Qed.

(** With a wallet registered, [useCurrentWallet] returns, and touches
    nothing but the [currentWallet] of the store. *)
Lemma useCurrentWallet_returns wallets first cell w :
  wallets !! 0 = Some first →
  ∃ wallet cell' w1,
    useCurrentWallet wallets cell w = (inr (wallet, cell'), w1)
    ∧ connectionId (store (env w1)) = connectionId (store (env w))
    ∧ clock (env w1) = clock (env w)
    ∧ outside (env w1) = outside (env w)
    ∧ calls w1 = calls w
    ∧ console w1 = console w.
Proof.
  intros Hfirst.
  destruct cell as [[deps value]|] eqn:Hcell.
  - destruct (decide (deps = currentWallet (store (env w)))) as [->|Hne].
    + eexists _, _, _. by rewrite (useCurrentWallet_hit _ _ _ value).
    + rewrite (useCurrentWallet_miss _ first) by
        (try done; by intros [? [= ]]).
      destruct (List.find _ wallets); by eexists _, _, _.
  - rewrite (useCurrentWallet_miss _ first) by (try done; by intros [? [= ]]).
    destruct (List.find _ wallets); by eexists _, _, _.
Qed.

Lemma useCurrentWallet_coherent wallets first cell w wallet cell' w1 :
  wallets !! 0 = Some first →
  memoCoherent wallets cell →
  useCurrentWallet wallets cell w = (inr (wallet, cell'), w1) →
  memoCoherent wallets cell'.
Proof.
  intros Hfirst Hcell.
  assert (¬ memoFor (currentWallet (store (env w))) cell →
          useCurrentWallet wallets cell w = (inr (wallet, cell'), w1) →
          memoCoherent wallets cell') as Hmiss.
  { intros Hmiss. rewrite (useCurrentWallet_miss _ first) by done.
    destruct (List.find _ wallets) as [found|] eqn:Hfind;
      intros [= <- <- <-]; cbn; by rewrite Hfind. }
  destruct cell as [[deps value]|] eqn:Heq.
  - destruct (decide (deps = currentWallet (store (env w)))) as [->|Hne].
    + rewrite (useCurrentWallet_hit _ _ _ value) by done.
      by intros [= <- <- <-].
    + apply Hmiss. by intros [? [= ]].
  - apply Hmiss. by intros [? [= ]].
Qed.

(** C5, as the code has it.  Let [walletName] be the name of no registered
    wallet and let it be selected.  A read of the current wallet then
    returns the first registered wallet.  When the read computes its
    memoised lookup, which it does on the first read of a component and
    whenever the selected name differs from the one its previous read saw,
    it also writes the name of the first wallet into the store; when the
    cell already holds the lookup for [walletName], the read leaves the
    store as it is, with [walletName] selected. *)
Theorem stale_wallet_read wallets first (walletName : WalletName) cell w :
  wallets !! 0 = Some first →
  walletName ∉ name <$> wallets →
  memoCoherent wallets cell →
  ∃ cell' w',
    (setCurrentWallet walletName ≫= λ _, useCurrentWallet wallets cell) w
      = (inr (first, cell'), w')
    ∧ connectionId (store (env w')) = connectionId (store (env w))
    ∧ (¬ memoFor (Some walletName) cell →
       currentWallet (store (env w')) = Some (name first)
       ∧ cell' = Some (Some walletName, first))
    ∧ (memoFor (Some walletName) cell →
       currentWallet (store (env w')) = Some walletName ∧ cell' = cell).
Proof.
  intros Hfirst Habsent Hcell.
  erewrite bind_returned; [|reflexivity].
  set (w1 := with_store _ w).
  assert (currentWallet (store (env w1)) = Some walletName) as Hcur by done.
  assert (List.find (λ wallet, bool_decide (Some (name wallet)
                                            = Some walletName)) wallets
          = None) as Hfind.
  { apply find_name_None. by intros ? [= <-]. }
  assert (¬ memoFor (Some walletName) cell →
          ∃ cell' w',
            useCurrentWallet wallets cell w1 = (inr (first, cell'), w')
            ∧ connectionId (store (env w')) = connectionId (store (env w))
            ∧ (¬ memoFor (Some walletName) cell →
               currentWallet (store (env w')) = Some (name first)
               ∧ cell' = Some (Some walletName, first))
            ∧ (memoFor (Some walletName) cell →
               currentWallet (store (env w')) = Some walletName
               ∧ cell' = cell)) as Hmiss.
  { intros Hmiss. rewrite (useCurrentWallet_miss _ first) by by rewrite ?Hcur.
    rewrite Hcur, Hfind. eexists _, _. split; [done|]. split; [done|].
    split; [done|]. by intros ?. }
  destruct cell as [[deps value]|] eqn:Heq.
  - destruct (decide (deps = Some walletName)) as [->|Hne].
    + cbn in Hcell. rewrite Hfind in Hcell.
      assert (value = first) as -> by congruence.
      rewrite (useCurrentWallet_hit _ _ _ first) by by rewrite Hcur.
      eexists _, _. split; [done|]. split; [done|]. split; [|done].
      intros []. by eexists.
    + apply Hmiss. by intros [? [= ]].
  - apply Hmiss. by intros [? [= ]].
Qed.

(** *** The connector wrappers *)

(** C8.  [useAutoConnect] returns a function bound to the wallet
    [useCurrentWallet] returned.  Calling it calls [autoConnect] of that
    wallet's connector with the same arguments; whenever that call returns,
    whatever it returns, the function sets [connectionId] to the reading of
    the clock at that moment and returns the same value. *)
Theorem autoConnect_sets_connectionId wallets first cell w :
  wallets !! 0 = Some first →
  ∃ wallet cell' w1 autoConnect,
    useCurrentWallet wallets cell w = (inr (wallet, cell'), w1)
    ∧ useAutoConnect wallets cell w = (inr (autoConnect, cell'), w1)
    ∧ ∀ args w2 result e,
        WalletProxy.autoConnect (connector wallet) args (env w2)
          = (inr result, e) →
        autoConnect args w2 =
        (inr result,
         {| env := {| store := {| currentWallet := currentWallet (store e);
                                  connectionId := Some (clock e) |};
                      clock := clock e; outside := outside e |};
            calls := calls w2
                     ++ [ConnectorCall (name wallet) "autoConnect" args];
            console := console w2 |}).
Proof.
  intros Hfirst.
  destruct (useCurrentWallet_returns wallets first cell w Hfirst)
    as (wallet & cell' & w1 & Hcur & _).
  eexists wallet, cell', w1, _. split; [exact Hcur|]. split.
  - unfold useAutoConnect. erewrite bind_returned by exact Hcur. reflexivity.
  - intros args w2 result e Hcall. cbn beta.
    erewrite bind_returned; last first.
    { unfold invoke. rewrite Hcall. reflexivity. }
    reflexivity.
Qed.

(** C6, as the code has it.  [useDisconnect] returns a function bound to
    the wallet [useCurrentWallet] returned.  Calling it calls [disconnect]
    of that wallet's connector with the same arguments.  When that call
    returns, whatever it returns, the function unsets [connectionId] and
    returns the same value; when it throws or is rejected, the function
    fails with the same error and the store is as the call left it.  Hence
    a [connect] that returns leaves [connectionId] defined, and a
    [disconnect] that returns after it leaves it unset. *)
Theorem disconnect_clears_on_return wallets first cell w :
  wallets !! 0 = Some first →
  ∃ wallet cell' w1 connect disconnect,
    useCurrentWallet wallets cell w = (inr (wallet, cell'), w1)
    ∧ useConnect wallets cell w = (inr (connect, cell'), w1)
    ∧ useDisconnect wallets cell w = (inr (disconnect, cell'), w1)
    ∧ (∀ args w2 result e,
         WalletProxy.disconnect (connector wallet) args (env w2)
           = (inr result, e) →
         disconnect args w2 =
         (inr result,
          {| env := {| store := {| currentWallet := currentWallet (store e);
                                   connectionId := None |};
                       clock := clock e; outside := outside e |};
             calls := calls w2
                      ++ [ConnectorCall (name wallet) "disconnect" args];
             console := console w2 |}))
    ∧ (∀ args w2 x e,
         WalletProxy.disconnect (connector wallet) args (env w2)
           = (inl x, e) →
         disconnect args w2 =
         (inl x,
          {| env := e;
             calls := calls w2
                      ++ [ConnectorCall (name wallet) "disconnect" args];
             console := console w2 |}))
    ∧ (∀ args args' w2 w3 w4 result result',
         connect args w2 = (inr result, w3) →
         disconnect args' w3 = (inr result', w4) →
         is_Some (connectionId (store (env w3)))
         ∧ connectionId (store (env w4)) = None).
Proof.
  intros Hfirst.
  destruct (useCurrentWallet_returns wallets first cell w Hfirst)
    as (wallet & cell' & w1 & Hcur & _).
  eexists wallet, cell', w1, _, _. split; [exact Hcur|]. split; [|split].
  - unfold useConnect. erewrite bind_returned by exact Hcur. reflexivity.
  - unfold useDisconnect. erewrite bind_returned by exact Hcur. reflexivity.
  - cbn beta. split; [|split].
    + intros args w2 result e Hcall.
      erewrite bind_returned; last first.
      { unfold invoke. rewrite Hcall. reflexivity. }
      reflexivity.
    + intros args w2 x e Hcall.
      erewrite bind_thrown; [reflexivity|].
      unfold invoke. rewrite Hcall. reflexivity.
    + intros args args' w2 w3 w4 result result'.
      unfold mbind, Js.M_bind, Js.bind, invoke.
      destruct (WalletProxy.connect (connector wallet) args (env w2))
        as [[x|v] e]; [done|].
      cbn. intros [= <- <-]. cbn.
      destruct (WalletProxy.disconnect (connector wallet) args' _)
        as [[x'|v'] e']; [done|].
      cbn. intros [= <- <-]. cbn. split; [by eexists|done].
Qed.

(** C7, as the code has it.  [useAutoConnectOnce] returns a function bound
    to the wallet [useCurrentWallet] returned.  Called while [connectionId]
    is unset or zero, it returns [false] without a call to the connector,
    leaving a message on the console and the store as it is.  Called while
    [connectionId] is a non-zero number, it calls [autoConnectOnce] of the
    connector with the same arguments and ends as that call ends, with the
    same value or the same error and the store as the call left it. *)
Theorem autoConnectOnce_guarded wallets first cell w :
  wallets !! 0 = Some first →
  ∃ wallet cell' w1 autoConnectOnce,
    useCurrentWallet wallets cell w = (inr (wallet, cell'), w1)
    ∧ useAutoConnectOnce wallets cell w = (inr (autoConnectOnce, cell'), w1)
    ∧ (∀ args w2,
         connectionId (store (env w2)) = None
         ∨ connectionId (store (env w2)) = Some 0%Z →
         autoConnectOnce args w2 =
         (inr (VBoolean false),
          {| env := env w2; calls := calls w2;
             console :=
               console w2
               ++ ["connectionId don't exists, auto connect is suppressed"]
          |}))
    ∧ (∀ args w2 id r e,
         connectionId (store (env w2)) = Some id → id ≠ 0%Z →
         WalletProxy.autoConnectOnce (connector wallet) args (env w2)
           = (r, e) →
         autoConnectOnce args w2 =
         (r,
          {| env := e;
             calls := calls w2
                      ++ [ConnectorCall (name wallet) "autoConnectOnce" args];
             console := console w2 |})).
Proof.
  intros Hfirst.
  destruct (useCurrentWallet_returns wallets first cell w Hfirst)
    as (wallet & cell' & w1 & Hcur & _).
  eexists wallet, cell', w1, _. split; [exact Hcur|]. split; [|split].
  - unfold useAutoConnectOnce. erewrite bind_returned by exact Hcur.
    reflexivity.
  - intros args w2 Hid. cbn beta.
    erewrite bind_returned; [|reflexivity].
    by destruct Hid as [-> | ->].
  - intros args w2 id r e Hid Hne Hcall. cbn beta.
    erewrite bind_returned; [|reflexivity].
    rewrite Hid. cbn. destruct (Z.eqb_spec id 0) as [|_]; [done|]. cbn.
    unfold invoke. by rewrite Hcall.
Qed.

(** *** Construction *)

(** C9, as the code has it.  Over no wallets [createWalletProxy] throws the
    error the specification calls [EmptyWalletSet] and leaves the world as
    it is.  Over at least one wallet it returns a proxy with the combined
    hooks and the wallets.  The default of [currentWallet] is the
    [defaultCurrentWallet] of the options when that is given and not the
    empty string, and the name of the first wallet when it is not given or
    empty.  When no state of schema version 0 is saved under the key, the
    store starts with that default and no [connectionId]; when one is, the
    store starts with its [currentWallet], or the default if it has none,
    and with its [connectionId]. *)
Theorem createWalletProxy_initial (storage : Storage) (options : Options) w :
  createWalletProxy storage [] options w = (inl EmptyWalletSet, w)
  ∧ ∀ first rest,
      ∃ proxy combinedHooks initial current,
        createWalletProxy storage (first :: rest) options w =
        (inr proxy,
         {| env := {| store := initial;
                      clock := clock (env w); outside := outside (env w) |};
            calls := calls w; console := console w |})
        ∧ getCombinedHooks (first :: rest) = inr combinedHooks
        ∧ proxy_hooks proxy = combinedHooks
        ∧ proxy_wallets proxy = first :: rest
        ∧ (∀ given, defaultCurrentWallet options = Some given →
                    given ≠ "" → current = given)
        ∧ (defaultCurrentWallet options = None
           ∨ defaultCurrentWallet options = Some "" →
           current = name first)
        ∧ (load (default "@web3-wallet" (key options)) 0 storage = None →
           initial = {| currentWallet := Some current;
                        connectionId := None |})
        ∧ (∀ persistedState,
             load (default "@web3-wallet" (key options)) 0 storage
               = Some persistedState →
             currentWallet initial =
               Some (default current (currentWallet persistedState))
             ∧ connectionId initial = connectionId persistedState).
Proof.
  split; [reflexivity|]. intros first rest.
  destruct (getCombinedHooks_lookup (first :: rest) first "" eq_refl)
    as (combinedHooks & Hcombined & _).
  eexists _, combinedHooks, _,
    (or_else (defaultCurrentWallet options) (name first)).
  split; [|split; [exact Hcombined|]].
  - unfold createWalletProxy. cbn [length bool_decide decide_rel].
    rewrite bool_decide_eq_false_2 by done.
    erewrite bind_returned; [|reflexivity].
    erewrite bind_returned; [|reflexivity].
    erewrite bind_returned; [|unfold Js.lift; rewrite Hcombined; reflexivity].
    reflexivity.
  - split; [done|]. split; [done|]. split; [|split; [|split]].
    + intros given -> Hne. by destruct given.
    + by intros [-> | ->].
    + unfold persist. by intros ->.
    + unfold persist. intros persistedState ->. cbn.
      by destruct (currentWallet persistedState),
                  (connectionId persistedState).
Qed.

(** The functions of the proxy are the closures over its wallets. *)
Lemma createWalletProxy_api (storage : Storage) (options : Options) w
    first rest (proxy : WalletProxy E) w' :
  createWalletProxy storage (first :: rest) options w = (inr proxy, w') →
  proxy_useCurrentWallet proxy = useCurrentWallet (first :: rest)
  ∧ proxy_setCurrentWallet proxy = setCurrentWallet
  ∧ proxy_useConnectionId proxy = useConnectionId
  ∧ proxy_useConnect proxy = useConnect (first :: rest)
  ∧ proxy_useAutoConnect proxy = useAutoConnect (first :: rest)
  ∧ proxy_useAutoConnectOnce proxy = useAutoConnectOnce (first :: rest)
  ∧ proxy_useDisconnect proxy = useDisconnect (first :: rest).
Proof.
  destruct (getCombinedHooks_lookup (first :: rest) first "" eq_refl)
    as (combinedHooks & Hcombined & _).
  unfold createWalletProxy. rewrite bool_decide_eq_false_2 by done.
  erewrite bind_returned; [|reflexivity].
  erewrite bind_returned; [|reflexivity].
  erewrite bind_returned; [|unfold Js.lift; rewrite Hcombined; reflexivity].
  by intros [= <- <-].
Qed.

(** ** Further properties of the proxy *)

(** *** Selecting and reading *)

Lemma find_name_registered wallets wallet :
  wallet ∈ wallets →
  ∃ found,
    List.find (λ registered,
                 bool_decide (Some (name registered) = Some (name wallet)))
              wallets
      = Some found
    ∧ found ∈ wallets ∧ name found = name wallet.
Proof.
  intros Hin.
  destruct (List.find _ wallets) as [found|] eqn:Hfind.
  - exists found. split; [done|].
    apply List.find_some in Hfind as [Hfound Hname].
    apply bool_decide_eq_true in Hname. split.
    + by apply list_elem_of_In.
    + congruence.
  - pose proof (proj1 (find_name_None wallets (Some (name wallet))) Hfind)
      as Habsent.
    destruct (Habsent (name wallet) eq_refl).
    apply list_elem_of_fmap. by exists wallet.
Qed.

Lemma unique_name wallets wallet found :
  NoDup (name <$> wallets) → wallet ∈ wallets → found ∈ wallets →
  name found = name wallet → found = wallet.
Proof.
  intros Hnodup [i Hi]%list_elem_of_lookup [j Hj]%list_elem_of_lookup Hname.
  assert (i = j) as ->; [|congruence].
  apply (NoDup_lookup _ i j (name wallet) Hnodup).
  - by rewrite list_lookup_fmap, Hi.
  - rewrite list_lookup_fmap, Hj. cbn. congruence.
Qed.

(** X9.  Selecting a registered wallet and reading the current wallet
    gives a registered wallet of that name back, which is the selected
    wallet itself when names are unique; the read writes nothing, so the
    store holds the selected name, and nothing else in the world has
    changed. *)
Theorem select_then_read wallets wallet cell w :
  wallet ∈ wallets →
  memoCoherent wallets cell →
  ∃ found cell',
    (setCurrentWallet (name wallet) ≫= λ _, useCurrentWallet wallets cell) w
      = (inr (found, cell'),
         with_store (λ s, {| currentWallet := Some (name wallet);
                             connectionId := connectionId s |}) w)
    ∧ found ∈ wallets
    ∧ name found = name wallet
    ∧ (NoDup (name <$> wallets) → found = wallet)
    ∧ memoCoherent wallets cell'.
Proof.
  intros Hin Hcell.
  destruct (find_name_registered wallets wallet Hin)
    as (found & Hfind & Hfound & Hname).
  assert (∃ first, wallets !! 0 = Some first) as [first Hfirst].
  { destruct wallets as [|first wallets]; [|by eexists].
    by apply elem_of_nil in Hin. }
  erewrite bind_returned; [|reflexivity].
  set (w1 := with_store _ w).
  assert (currentWallet (store (env w1)) = Some (name wallet)) as Hcur by done.
  exists found.
  assert (∀ cell', useCurrentWallet wallets cell w1 = (inr (found, cell'), w1) →
                   memoCoherent wallets cell' →
          ∃ cell',
            useCurrentWallet wallets cell w1 = (inr (found, cell'), w1)
            ∧ found ∈ wallets ∧ name found = name wallet
            ∧ (NoDup (name <$> wallets) → found = wallet)
            ∧ memoCoherent wallets cell') as Hfinish.
  { intros cell' Hread Hcell'. exists cell'. split; [done|].
    split; [done|]. split; [done|]. split; [|done].
    intros Hnodup. by apply (unique_name wallets). }
  assert (¬ memoFor (Some (name wallet)) cell →
          ∃ cell',
            useCurrentWallet wallets cell w1 = (inr (found, cell'), w1)
            ∧ found ∈ wallets ∧ name found = name wallet
            ∧ (NoDup (name <$> wallets) → found = wallet)
            ∧ memoCoherent wallets cell') as Hmiss.
  { intros Hmiss. eapply Hfinish.
    - rewrite (useCurrentWallet_miss _ first) by by rewrite ?Hcur.
      by rewrite Hcur, Hfind.
    - cbn. by rewrite Hfind. }
  destruct cell as [[deps value]|] eqn:Heq.
  - destruct (decide (deps = Some (name wallet))) as [->|Hne].
    + cbn in Hcell. rewrite Hfind in Hcell. subst value.
      eapply Hfinish.
      * by rewrite (useCurrentWallet_hit _ _ _ found) by by rewrite Hcur.
      * cbn. by rewrite Hfind.
    + apply Hmiss. by intros [? [= ]].
  - apply Hmiss. by intros [? [= ]].
Qed.

(** X10.  With a wallet registered and a coherent cell, a read of the
    current wallet returns a registered wallet and leaves a coherent cell
    that holds the lookup for the name the store had.  When that name is
    the name of a registered wallet the world is left as it is; and when
    the read computes its lookup, the store names the returned wallet
    afterwards. *)
Theorem read_returns_registered wallets first cell w :
  wallets !! 0 = Some first →
  memoCoherent wallets cell →
  ∃ wallet cell' w',
    useCurrentWallet wallets cell w = (inr (wallet, cell'), w')
    ∧ wallet ∈ wallets
    ∧ memoCoherent wallets cell'
    ∧ memoFor (currentWallet (store (env w))) cell'
    ∧ (∀ registered, registered ∈ wallets →
         currentWallet (store (env w)) = Some (name registered) →
         w' = w ∧ name wallet = name registered)
    ∧ (¬ memoFor (currentWallet (store (env w))) cell →
       currentWallet (store (env w')) = Some (name wallet)).
Proof.
  intros Hfirst Hcell.
  set (cur := currentWallet (store (env w))).
  assert (first ∈ wallets) as Hfirst_in by by eapply list_elem_of_lookup_2.
  assert (∀ registered, registered ∈ wallets → cur = Some (name registered) →
          ∃ found, List.find (λ wallet0,
                                bool_decide (Some (name wallet0) = cur))
                             wallets
                     = Some found
                   ∧ found ∈ wallets ∧ name found = name registered)
    as Hregistered.
  { intros registered Hin ->. by apply find_name_registered. }
  assert (memoFor cur cell ∨ ¬ memoFor cur cell) as [[value ->]|Hmiss].
  { destruct cell as [[deps value]|]; [|right; by intros [? [=]]].
    destruct (decide (deps = cur)) as [->|Hne]; [left; by eexists|].
    right. by intros [? [=]]. }
  - rewrite (useCurrentWallet_hit _ _ _ value) by done.
    exists value, (Some (cur, value)), w. split; [done|].
    cbn in Hcell. split.
    { destruct (List.find _ wallets) as [found|] eqn:Hfind.
      - subst value. apply List.find_some in Hfind as [Hfound _].
        by apply list_elem_of_In.
      - by eapply list_elem_of_lookup_2. }
    split; [done|]. split; [by eexists|]. split.
    + intros registered Hin Hname. split; [done|].
      destruct (Hregistered registered Hin Hname)
        as (found & Hfind & _ & Hfound).
      rewrite Hfind in Hcell. by subst value.
    + intros []. by eexists.
  - rewrite (useCurrentWallet_miss _ first) by done. fold cur.
    destruct (List.find _ wallets) as [found|] eqn:Hfind.
    + exists found, (Some (cur, found)), w. split; [done|].
      pose proof Hfind as Hfound.
      apply List.find_some in Hfound as [Hfound Hname].
      apply bool_decide_eq_true in Hname.
      split; [by apply list_elem_of_In|]. split; [cbn; by rewrite Hfind|].
      split; [by eexists|]. split.
      * intros registered Hin Hcur. split; [done|]. congruence.
      * intros _. by rewrite Hname.
    + eexists first, (Some (cur, first)), _. split; [done|].
      split; [done|]. split; [cbn; by rewrite Hfind|].
      split; [by eexists|]. split; [|done].
      intros registered Hin Hcur.
      destruct (Hregistered registered Hin Hcur) as (found & Hfind' & _).
      congruence.
Qed.

(** *** Rendering *)

(** X11.  With a wallet registered, the accessors a component calls while
    it renders return, each with a function and the cell the read of the
    current wallet left, and call into no wallet: the list of calls, the
    console, the clock, [connectionId] and the world outside are as
    before.  [useConnectionId] returns the [connectionId] of the store and
    changes nothing. *)
Theorem rendering_calls_no_wallet wallets first cell w :
  wallets !! 0 = Some first →
  ∃ wallet cell' w1 connect autoConnect autoConnectOnce disconnect,
    useCurrentWallet wallets cell w = (inr (wallet, cell'), w1)
    ∧ useConnect wallets cell w = (inr (connect, cell'), w1)
    ∧ useAutoConnect wallets cell w = (inr (autoConnect, cell'), w1)
    ∧ useAutoConnectOnce wallets cell w = (inr (autoConnectOnce, cell'), w1)
    ∧ useDisconnect wallets cell w = (inr (disconnect, cell'), w1)
    ∧ calls w1 = calls w
    ∧ console w1 = console w
    ∧ clock (env w1) = clock (env w)
    ∧ outside (env w1) = outside (env w)
    ∧ connectionId (store (env w1)) = connectionId (store (env w))
    ∧ useConnectionId w = (inr (connectionId (store (env w))), w).
Proof.
  intros Hfirst.
  destruct (useCurrentWallet_returns wallets first cell w Hfirst)
    as (wallet & cell' & w1 & Hcur & Hid & Hclock & Houtside & Hcalls
        & Hconsole).
  eexists wallet, cell', w1, _, _, _, _. split; [exact Hcur|].
  split; [unfold useConnect; by erewrite bind_returned by exact Hcur|].
  split; [unfold useAutoConnect; by erewrite bind_returned by exact Hcur|].
  split; [unfold useAutoConnectOnce;
          by erewrite bind_returned by exact Hcur|].
  split; [unfold useDisconnect; by erewrite bind_returned by exact Hcur|].
  done.
Qed.

(** *** Connecting *)

(** X12.  The function [useConnect] returns is bound to the wallet that
    was current when it was made, whichever wallet is selected when it is
    called.  It calls [connect] of that wallet's connector once; when the
    call returns it sets [connectionId] to the reading of the clock at
    that moment and returns [undefined], whatever the connector returned;
    when the call throws or is rejected it fails with the same error and
    writes nothing to the store. *)
Theorem connect_marks_success wallets first cell w :
  wallets !! 0 = Some first →
  ∃ wallet cell' w1 connect,
    useCurrentWallet wallets cell w = (inr (wallet, cell'), w1)
    ∧ useConnect wallets cell w = (inr (connect, cell'), w1)
    ∧ (∀ args w2 result e,
         WalletProxy.connect (connector wallet) args (env w2)
           = (inr result, e) →
         connect args w2 =
         (inr undefined,
          {| env := {| store := {| currentWallet := currentWallet (store e);
                                   connectionId := Some (clock e) |};
                       clock := clock e; outside := outside e |};
             calls := calls w2
                      ++ [ConnectorCall (name wallet) "connect" args];
             console := console w2 |}))
    ∧ (∀ args w2 x e,
         WalletProxy.connect (connector wallet) args (env w2) = (inl x, e) →
         connect args w2 =
         (inl x,
          {| env := e;
             calls := calls w2
                      ++ [ConnectorCall (name wallet) "connect" args];
             console := console w2 |})).
Proof.
  intros Hfirst.
  destruct (useCurrentWallet_returns wallets first cell w Hfirst)
    as (wallet & cell' & w1 & Hcur & _).
  eexists wallet, cell', w1, _. split; [exact Hcur|]. split; [|split].
  - unfold useConnect. erewrite bind_returned by exact Hcur. reflexivity.
  - intros args w2 result e Hcall. cbn beta.
    erewrite bind_returned; last first.
    { unfold invoke. rewrite Hcall. reflexivity. }
    reflexivity.
  - intros args w2 x e Hcall. cbn beta.
    erewrite bind_thrown; [reflexivity|].
    unfold invoke. rewrite Hcall. reflexivity.
Qed.

(** X13.  When [autoConnect] of the connector throws or is rejected, the
    function [useAutoConnect] returned fails with the same error after
    that one call, and writes nothing to the store: [connectionId] is what
    the call left. *)
Theorem autoConnect_passes_rejection_on wallets first cell w :
  wallets !! 0 = Some first →
  ∃ wallet cell' w1 autoConnect,
    useCurrentWallet wallets cell w = (inr (wallet, cell'), w1)
    ∧ useAutoConnect wallets cell w = (inr (autoConnect, cell'), w1)
    ∧ ∀ args w2 x e,
        WalletProxy.autoConnect (connector wallet) args (env w2)
          = (inl x, e) →
        autoConnect args w2 =
        (inl x,
         {| env := e;
            calls := calls w2
                     ++ [ConnectorCall (name wallet) "autoConnect" args];
            console := console w2 |}).
Proof.
  intros Hfirst.
  destruct (useCurrentWallet_returns wallets first cell w Hfirst)
    as (wallet & cell' & w1 & Hcur & _).
  eexists wallet, cell', w1, _. split; [exact Hcur|]. split.
  - unfold useAutoConnect. erewrite bind_returned by exact Hcur. reflexivity.
  - intros args w2 x e Hcall. cbn beta.
    erewrite bind_thrown; [reflexivity|].
    unfold invoke. rewrite Hcall. reflexivity.
Qed.

(** X14.  The guard of [autoConnectOnce] across the other operations: after
    a [disconnect] that returned, [autoConnectOnce] returns [false] and
    calls nothing; after a [connect] that returned while the clock read
    something other than 0, it calls the connector. *)
Theorem connectionId_gates_autoConnectOnce wallets first cell w :
  wallets !! 0 = Some first →
  ∃ wallet cell' w1 connect disconnect autoConnectOnce,
    useCurrentWallet wallets cell w = (inr (wallet, cell'), w1)
    ∧ useConnect wallets cell w = (inr (connect, cell'), w1)
    ∧ useDisconnect wallets cell w = (inr (disconnect, cell'), w1)
    ∧ useAutoConnectOnce wallets cell w = (inr (autoConnectOnce, cell'), w1)
    ∧ (∀ args args' w2 w3 result,
         disconnect args w2 = (inr result, w3) →
         autoConnectOnce args' w3 =
         (inr (VBoolean false),
          {| env := env w3; calls := calls w3;
             console :=
               console w3
               ++ ["connectionId don't exists, auto connect is suppressed"]
          |}))
    ∧ (∀ args args' w2 w3 result,
         connect args w2 = (inr result, w3) →
         clock (env w3) ≠ 0%Z →
         autoConnectOnce args' w3 =
         invoke (ConnectorCall (name wallet) "autoConnectOnce" args')
                (WalletProxy.autoConnectOnce (connector wallet) args') w3).
Proof.
  intros Hfirst.
  destruct (useCurrentWallet_returns wallets first cell w Hfirst)
    as (wallet & cell' & w1 & Hcur & _).
  eexists wallet, cell', w1, _, _, _. split; [exact Hcur|].
  split; [unfold useConnect; by erewrite bind_returned by exact Hcur|].
  split; [unfold useDisconnect; by erewrite bind_returned by exact Hcur|].
  split; [unfold useAutoConnectOnce;
          by erewrite bind_returned by exact Hcur|].
  cbn beta. split.
  - intros args args' w2 w3 result.
    unfold mbind at 1, Js.M_bind, Js.bind at 1, invoke.
    destruct (WalletProxy.disconnect (connector wallet) args (env w2))
      as [[x|v] e]; [done|].
    intros [= <- <-]. reflexivity.
  - intros args args' w2 w3 result.
    unfold mbind at 1, Js.M_bind, Js.bind at 1, invoke.
    destruct (WalletProxy.connect (connector wallet) args (env w2))
      as [[x|v] e]; [done|].
    intros [= <- <-]. cbn. intros Hclock.
    erewrite bind_returned; [|reflexivity]. cbn.
    by destruct (Z.eqb_spec (clock e) 0).
Qed.

(** X15.  What [autoConnectOnce] does on a proxy that was just made is
    decided by the persistence backend.  When a state of schema version 0
    with a [connectionId] other than 0 is saved under the key, the function
    [useAutoConnectOnce] gives calls [autoConnectOnce] of the connector of
    the current wallet and ends as that call ends.  Otherwise (nothing
    saved, another version, no [connectionId] or 0) it returns [false],
    logs the suppression and calls no wallet. *)
Theorem restored_connectionId_gates_autoConnectOnce (storage : Storage)
    first rest (options : Options) cell w args :
  ∃ proxy w0 wallet autoConnectOnce cell' w1,
    createWalletProxy storage (first :: rest) options w = (inr proxy, w0)
    ∧ proxy_useCurrentWallet proxy cell w0 = (inr (wallet, cell'), w1)
    ∧ proxy_useAutoConnectOnce proxy cell w0
      = (inr (autoConnectOnce, cell'), w1)
    ∧ autoConnectOnce args w1 =
      if truthy (load (default "@web3-wallet" (key options)) 0 storage
                 ≫= connectionId)
      then invoke (ConnectorCall (name wallet) "autoConnectOnce" args)
                  (WalletProxy.autoConnectOnce (connector wallet) args) w1
      else (inr (VBoolean false),
            {| env := env w1; calls := calls w;
               console :=
                 console w
                 ++ ["connectionId don't exists, auto connect is suppressed"]
            |}).
Proof.
  destruct (getCombinedHooks_lookup (first :: rest) first "" eq_refl)
    as (combinedHooks & Hcombined & _).
  set (w0 := with_store (λ _,
    persist
      {| connectionId := None;
         currentWallet :=
           Some (or_else (defaultCurrentWallet options) (name first)) |}
      (default "@web3-wallet" (key options)) 0 storage) w).
  destruct (useCurrentWallet_returns (first :: rest) first cell w0 eq_refl)
    as (wallet & cell' & w1 & Hcur & Hid & _ & _ & Hcalls & Hconsole).
  eexists _, w0, wallet, _, cell', w1. split.
  { unfold createWalletProxy. rewrite bool_decide_eq_false_2 by done.
    erewrite bind_returned; [|reflexivity].
    erewrite bind_returned; [|reflexivity].
    erewrite bind_returned; [|unfold Js.lift; rewrite Hcombined; reflexivity].
    reflexivity. }
  cbn [proxy_useAutoConnectOnce proxy_useCurrentWallet].
  split; [exact Hcur|]. split.
  { unfold useAutoConnectOnce. erewrite bind_returned by exact Hcur.
    reflexivity. }
  cbn beta. erewrite bind_returned; [|reflexivity].
  rewrite Hid. cbn [store env w0 with_store]. unfold persist.
  destruct (load (default "@web3-wallet" (key options)) 0 storage)
    as [persistedState|]; cbn.
  - destruct (connectionId persistedState) as [id|]; cbn.
    + by destruct (id =? 0)%Z; cbn;
        [erewrite bind_returned by reflexivity;
         unfold Js.ret; rewrite Hcalls, Hconsole|].
    + erewrite bind_returned; [|reflexivity].
      unfold Js.ret. by rewrite Hcalls, Hconsole.
  - erewrite bind_returned; [|reflexivity].
    unfold Js.ret. by rewrite Hcalls, Hconsole.
Qed.

(** *** The combined hooks at their edges *)

Lemma combinedHookLoop_app (hookName : string) args
    (currentWalletName : option WalletName) pre rest :
  Forall (hookReturns hookName) pre →
  ∀ (out : Value) w,
  ∃ vs e' out',
    hooksCalled hookName args pre (env w) vs e'
    ∧ combinedHookLoop hookName args currentWalletName (pre ++ rest) out w =
      combinedHookLoop hookName args currentWalletName rest out'
        {| env := e';
           calls := calls w ++ ((λ wallet, HookCall (name wallet) hookName args)
                                  <$> pre);
           console := console w |}.
Proof.
  induction 1 as [|wallet pre (hookFn & Hhook & Hret) _ IH]; intros out w.
  - exists [], (env w), out. split; [constructor|].
    cbn. rewrite app_nil_r. by destruct w.
  - destruct (Hret args (env w)) as [v Hv].
    destruct (hookFn args (env w)) as [r e1] eqn:Hcall. cbn in Hv. subst r.
    set (w1 := {| env := e1;
                  calls := calls w ++ [HookCall (name wallet) hookName args];
                  console := console w |}).
    set (out1 := if bool_decide (Some (name wallet) = currentWalletName)
                 then v else out).
    destruct (IH out1 w1) as (vs & e' & out' & Hcalled & Hrun).
    exists (v :: vs), e', out'. split; [by econstructor|].
    cbn [combinedHookLoop app]. rewrite Hhook.
    erewrite bind_returned; [|reflexivity].
    erewrite bind_returned; last first.
    { unfold invoke. rewrite Hcall. reflexivity. }
    fold w1 out1. rewrite Hrun. cbn. by rewrite <- app_assoc.
Qed.


(** X17.  A hook that throws stops a combined hook: the hooks of the
    wallets registered before it and the hook itself have been called, the
    call fails with the error of the hook, and no wallet registered after
    it is called. *)
Theorem combined_hook_stops_at_throwing_hook wallets pre wallet post
    (hookName : string) (hookFn : list Value → Js.M (Env E) exn Value)
    args w :
  wallets = pre ++ wallet :: post →
  Forall (hookReturns hookName) pre →
  hooks wallet !! hookName = Some hookFn →
  ∃ vs e',
    hooksCalled hookName args pre (env w) vs e'
    ∧ ∀ x e1,
        hookFn args e' = (inl x, e1) →
        combinedHook wallets hookName args w =
        (inl x,
         {| env := e1;
            calls := calls w
                     ++ ((λ wallet, HookCall (name wallet) hookName args)
                           <$> pre)
                     ++ [HookCall (name wallet) hookName args];
            console := console w |}).
Proof.
  intros -> Hpre Hhook.
  destruct (combinedHookLoop_app hookName args (currentWallet (store (env w)))
              pre (wallet :: post) Hpre undefined w)
    as (vs & e' & out' & Hcalled & Hrun).
  exists vs, e'. split; [done|]. intros x e1 Hthrow. unfold combinedHook.
  erewrite bind_returned; [|reflexivity]. cbn zeta. rewrite Hrun.
  cbn [combinedHookLoop]. rewrite Hhook.
  erewrite bind_returned; [|reflexivity].
  erewrite bind_thrown; last first.
  { unfold invoke. cbn. rewrite Hthrow. reflexivity. }
  cbn. by rewrite <- app_assoc.
Qed.

(** X18.  The combined hooks have exactly the names of the hooks of the
    first wallet: a name only other wallets have is not among them, and a
    name the first wallet has is, whether or not the others have it.  Over
    no wallets there are no combined hooks but a [TypeError]. *)
Theorem combined_hooks_follow_first_wallet wallets first :
  wallets !! 0 = Some first →
  getCombinedHooks (E := E) [] = inl (TypeError
                                        "Cannot read properties of undefined")
  ∧ ∃ combinedHooks,
      getCombinedHooks wallets = inr combinedHooks
      ∧ dom combinedHooks = dom (hooks first)
      ∧ ∀ hookName, hooks first !! hookName = None →
                    combinedHooks !! hookName = None.
Proof.
  intros Hfirst. split; [reflexivity|].
  destruct (getCombinedHooks_lookup wallets first "" Hfirst)
    as (combinedHooks & Hcombined & _).
  exists combinedHooks. split; [done|].
  assert (∀ hookName,
    combinedHooks !! hookName =
    if decide (is_Some (hooks first !! hookName))
    then Some (combinedHook wallets hookName) else None) as Hlookup.
  { intros hookName.
    destruct (getCombinedHooks_lookup wallets first hookName Hfirst)
      as (combinedHooks' & Hcombined' & Hlookup).
    congruence. }
  split.
  - apply set_eq. intros hookName. rewrite !elem_of_dom, Hlookup.
    destruct (decide (is_Some (hooks first !! hookName))) as [Hin|Hnin].
    + split; [done|by eexists].
    + split; [by intros [? [=]]|done].
  - intros hookName Hnone. rewrite Hlookup, decide_False; [done|].
    rewrite Hnone. by intros [? [=]].
Qed.

End Proxy.

(** *** The statements at work on the sample wallets *)

Lemma sampleWallets_first :
  sampleWallets !! 0 = Some (sampleWallet "MetaMask" "0xaa").
Proof. reflexivity. Defined.

Lemma sampleWallets_useAccounts :
  Forall (hookReturns "useAccounts") sampleWallets.
Proof.
  repeat constructor;
    (eexists; split; [reflexivity|]; intros args e; eexists; reflexivity).
Defined.

Lemma Ghost_not_registered : "Ghost" ∉ name <$> sampleWallets.
Proof.
  cbn. intros Hin.
  repeat (apply elem_of_cons in Hin as [Hin|Hin]; [discriminate Hin|]).
  by apply elem_of_nil in Hin.
Defined.

(** The names of the combined hooks come out sorted. *)
Example sortedKeys_sample :
  sortedKeys (hooks (sampleWallet "MetaMask" "0xaa"))
  = ["useAccounts"; "useIsConnected"].
Proof. reflexivity. Qed.

(** The three wallets are called in turn and the value of the selected
    one comes back. *)
Example combined_useAccounts_sample :
  combinedHook sampleWallets "useAccounts" []
    (sampleWorld (Some "Coinbase") None 1000 false)
  = (inr (VArray [VString "0xbb"]),
     {| env := env (sampleWorld (Some "Coinbase") None 1000 false);
        calls := [HookCall "MetaMask" "useAccounts" [];
                  HookCall "Coinbase" "useAccounts" [];
                  HookCall "Trust" "useAccounts" []];
        console := [] |}).
Proof. reflexivity. Qed.

Lemma combined_hook_calls_all_witness :
  let w := sampleWorld (Some "Coinbase") None 1000 false in
  sampleWallets !! 0 = Some (sampleWallet "MetaMask" "0xaa")
  ∧ Forall (hookReturns "useAccounts") sampleWallets
  ∧ ∃ combinedHooks merged vs e' out,
      getCombinedHooks sampleWallets = inr combinedHooks
      ∧ combinedHooks !! "useAccounts" = Some merged
      ∧ hooksCalled "useAccounts" [] sampleWallets (env w) vs e'
      ∧ merged [] w =
        (inr out,
         {| env := e';
            calls := [HookCall "MetaMask" "useAccounts" [];
                      HookCall "Coinbase" "useAccounts" [];
                      HookCall "Trust" "useAccounts" []];
            console := [] |}).
Proof.
  intros w. split; [exact sampleWallets_first|].
  split; [exact sampleWallets_useAccounts|].
  destruct (combined_hook_calls_all sampleWallets _ "useAccounts" [] w
              sampleWallets_first sampleWallets_useAccounts)
    as (combinedHooks & merged & vs & e' & out & Hcombined & Hlookup
        & Hcalled & Hrun & _).
  exists combinedHooks, merged, vs, e', out.
  split; [exact Hcombined|]. split; [exact Hlookup|].
  split; [exact Hcalled|]. exact Hrun.
Defined.

(** C5, a case the claim does not cover.  The store holds the name of a
    wallet that is gone; a component reads the current wallet, which puts
    the first wallet's name into the store; the same name is selected
    again; the component reads again and finds the lookup for that name in
    its cell: the first wallet is returned and the name that is not
    registered stays in the store. *)
Lemma stale_wallet_kept_on_memo_hit :
  let w0 := sampleWorld (Some "Ghost") None 1000 false in
  let first := sampleWallet "MetaMask" "0xaa" in
  ("Ghost" ∉ name <$> sampleWallets)
  ∧ ∃ cell w1 w2,
      useCurrentWallet sampleWallets None w0 = (inr (first, cell), w1)
      ∧ currentWallet (store (env w1)) = Some "MetaMask"
      ∧ ((setCurrentWallet "Ghost" ≫= λ _, useCurrentWallet sampleWallets cell)
           w1 = (inr (first, cell), w2))
      ∧ currentWallet (store (env w2)) = Some "Ghost"
      ∧ currentWallet (store (env w2)) ≠ Some (name first).
Proof.
  intros w0 first. split; [exact Ghost_not_registered|].
  eexists _, _, _. split; [reflexivity|]. split; [reflexivity|].
  split; [reflexivity|]. split; [reflexivity|]. discriminate.
Qed.

Lemma stale_wallet_read_witness :
  let w := sampleWorld (Some "Coinbase") None 1000 false in
  let first := sampleWallet "MetaMask" "0xaa" in
  sampleWallets !! 0 = Some first
  ∧ ("Ghost" ∉ name <$> sampleWallets)
  ∧ memoCoherent sampleWallets None
  ∧ ∃ cell' w',
      ((setCurrentWallet "Ghost" ≫= λ _, useCurrentWallet sampleWallets None) w
         = (inr (first, cell'), w'))
      ∧ currentWallet (store (env w')) = Some "MetaMask".
Proof.
  intros w first. split; [exact sampleWallets_first|].
  split; [exact Ghost_not_registered|]. split; [exact I|].
  destruct (stale_wallet_read sampleWallets first "Ghost" None w
              sampleWallets_first Ghost_not_registered I)
    as (cell' & w' & Hread & _ & Hmiss & _).
  exists cell', w'. split; [exact Hread|].
  apply Hmiss. intros [value Hvalue]. discriminate Hvalue.
Defined.

(** C6, a case the claim gets wrong.  No session is open, so that
    [disconnect] of the connector is rejected: the rejection comes back
    and [connectionId] is what it was. *)
Lemma disconnect_rejected_keeps_connectionId :
  let w :=
    sampleWorld (Some "MetaMask") (Some 1700000000000%Z) 1700000005000 false in
  ∃ disconnect cell' w1 x w2,
    useDisconnect sampleWallets None w = (inr (disconnect, cell'), w1)
    ∧ disconnect [] w1 = (inl x, w2)
    ∧ calls w2 = [ConnectorCall "MetaMask" "disconnect" []]
    ∧ connectionId (store (env w2)) = Some 1700000000000%Z
    ∧ connectionId (store (env w2)) ≠ None.
Proof.
  intros w. eexists _, _, _, _, _. split; [reflexivity|].
  split; [reflexivity|]. split; [reflexivity|]. split; [reflexivity|].
  discriminate.
Qed.

Lemma disconnect_clears_on_return_witness :
  let w := sampleWorld (Some "MetaMask") None 1700000000000 false in
  sampleWallets !! 0 = Some (sampleWallet "MetaMask" "0xaa")
  ∧ ∃ connect disconnect cell' w1 w2 w3,
      useConnect sampleWallets None w = (inr (connect, cell'), w1)
      ∧ useDisconnect sampleWallets None w = (inr (disconnect, cell'), w1)
      ∧ connect [] w1 = (inr undefined, w2)
      ∧ disconnect [] w2 = (inr undefined, w3)
      ∧ is_Some (connectionId (store (env w2)))
      ∧ connectionId (store (env w3)) = None.
Proof.
  intros w. split; [exact sampleWallets_first|].
  destruct (disconnect_clears_on_return sampleWallets _ None w
              sampleWallets_first)
    as (wallet & cell' & w1 & connect & disconnect & Hcur & Hconnect
        & Hdisconnect & _ & _ & Hround).
  injection Hcur as <- <- <-.
  injection Hconnect as <-. injection Hdisconnect as <-.
  eexists _, _, _, _, _, _. split; [reflexivity|]. split; [reflexivity|].
  split; [reflexivity|]. split; [reflexivity|].
  exact (Hround [] [] _ _ _ undefined undefined eq_refl eq_refl).
Defined.

(** C7, a case the claim gets wrong.  A [connect] that returns when the
    clock reads 0 sets [connectionId] to 0; [autoConnectOnce] then returns
    [false] without a call to the connector, whose [autoConnectOnce] would
    have returned [true]. *)
Lemma autoConnectOnce_suppressed_at_zero :
  let w := sampleWorld (Some "MetaMask") None 0 false in
  ∃ connect autoConnectOnce cell' w1 w2 w3,
    useConnect sampleWallets None w = (inr (connect, cell'), w1)
    ∧ useAutoConnectOnce sampleWallets None w
      = (inr (autoConnectOnce, cell'), w1)
    ∧ connect [] w1 = (inr undefined, w2)
    ∧ connectionId (store (env w2)) = Some 0%Z
    ∧ WalletProxy.autoConnectOnce sampleConnector [] (env w2)
      = (inr (VBoolean true), env w2)
    ∧ autoConnectOnce [] w2 = (inr (VBoolean false), w3)
    ∧ calls w3 = calls w2
    ∧ calls w3 = [ConnectorCall "MetaMask" "connect" []].
Proof.
  intros w. eexists _, _, _, _, _, _. split; [reflexivity|].
  split; [reflexivity|]. split; [reflexivity|]. split; [reflexivity|].
  split; [reflexivity|]. split; [cbv; reflexivity|]. split; reflexivity.
Qed.

Lemma autoConnectOnce_guarded_witness :
  let w := sampleWorld (Some "MetaMask") (Some 1700000000000%Z)
             1700000005000 true in
  sampleWallets !! 0 = Some (sampleWallet "MetaMask" "0xaa")
  ∧ ∃ autoConnectOnce cell' w1 w2,
      useAutoConnectOnce sampleWallets None w
        = (inr (autoConnectOnce, cell'), w1)
      ∧ autoConnectOnce [] w1 = (inr (VBoolean true), w2)
      ∧ calls w2 = [ConnectorCall "MetaMask" "autoConnectOnce" []]
      ∧ store (env w2) = store (env w1).
Proof.
  intros w. split; [exact sampleWallets_first|].
  destruct (autoConnectOnce_guarded sampleWallets _ None w
              sampleWallets_first)
    as (wallet & cell' & w1 & autoConnectOnce & Hcur & Huse & _ & Hcall).
  injection Hcur as <- <- <-.
  eexists autoConnectOnce, _, _, _. split; [exact Huse|]. split.
  - exact (Hcall [] w 1700000000000%Z _ _ eq_refl ltac:(discriminate)
             eq_refl).
  - split; reflexivity.
Defined.

Lemma autoConnect_sets_connectionId_witness :
  let w := sampleWorld (Some "Coinbase") None 1000 false in
  sampleWallets !! 0 = Some (sampleWallet "MetaMask" "0xaa")
  ∧ ∃ autoConnect cell' w1 w2,
      useAutoConnect sampleWallets None w = (inr (autoConnect, cell'), w1)
      ∧ autoConnect [] w1 = (inr (VBoolean false), w2)
      ∧ calls w2 = [ConnectorCall "Coinbase" "autoConnect" []]
      ∧ connectionId (store (env w2)) = Some 1003%Z.
Proof.
  intros w. split; [exact sampleWallets_first|].
  destruct (autoConnect_sets_connectionId sampleWallets _ None w
              sampleWallets_first)
    as (wallet & cell' & w1 & autoConnect & Hcur & Huse & Hcall).
  injection Hcur as <- <- <-.
  eexists autoConnect, _, _, _. split; [exact Huse|]. split.
  - exact (Hcall [] w (VBoolean false) _ eq_refl).
  - split; reflexivity.
Defined.

(** C9, two cases the claim gets wrong.  The empty string is given as
    [defaultCurrentWallet] and nothing is saved: the store starts from the
    name of the first wallet.  Coinbase is given as [defaultCurrentWallet]
    and the state of an earlier session is saved under the key: the store
    starts from the wallet of that session. *)
Lemma defaultCurrentWallet_not_taken :
  let w := sampleWorld None None 1000 false in
  let empty := {| defaultCurrentWallet := Some ""; key := None |} in
  let given := {| defaultCurrentWallet := Some "Coinbase"; key := None |} in
  (∃ proxy w',
     createWalletProxy ∅ sampleWallets empty w = (inr proxy, w')
     ∧ currentWallet (store (env w')) = Some "MetaMask"
     ∧ currentWallet (store (env w')) ≠ defaultCurrentWallet empty)
  ∧ (∃ proxy w',
       createWalletProxy sampleStorage sampleWallets given w = (inr proxy, w')
       ∧ currentWallet (store (env w')) = Some "Trust"
       ∧ currentWallet (store (env w')) ≠ defaultCurrentWallet given).
Proof.
  intros w empty given. split.
  - eexists _, _. split; [reflexivity|]. split; [reflexivity|]. discriminate.
  - eexists _, _. split; [reflexivity|]. split; [reflexivity|]. discriminate.
Qed.

Lemma createWalletProxy_initial_witness :
  let options := {| defaultCurrentWallet := Some "Coinbase"; key := None |} in
  let w := sampleWorld None None 1000 false in
  createWalletProxy ∅ [] options w = (inl EmptyWalletSet, w)
  ∧ (∃ proxy w',
       createWalletProxy ∅ sampleWallets options w = (inr proxy, w')
       ∧ store (env w') =
         {| currentWallet := Some "Coinbase"; connectionId := None |})
  ∧ (∃ proxy w',
       createWalletProxy sampleStorage sampleWallets options w
         = (inr proxy, w')
       ∧ store (env w') =
         {| currentWallet := Some "Trust"; connectionId := Some 7%Z |}).
Proof.
  intros options w.
  split; [exact (proj1 (createWalletProxy_initial (E := bool) ∅ options w))|].
  split.
  - destruct (proj2 (createWalletProxy_initial (E := bool) ∅ options w)
                (sampleWallet "MetaMask" "0xaa")
                [sampleWallet "Coinbase" "0xbb"; sampleWallet "Trust" "0xcc"])
      as (proxy & combinedHooks & initial & current & Hproxy & _ & _ & _
          & Hgiven & _ & Hnone & _).
    rewrite (Hnone eq_refl),
      (Hgiven "Coinbase" eq_refl ltac:(discriminate)) in Hproxy.
    eexists _, _. split; [exact Hproxy|]. reflexivity.
  - destruct (proj2 (createWalletProxy_initial (E := bool) sampleStorage
                       options w)
                (sampleWallet "MetaMask" "0xaa")
                [sampleWallet "Coinbase" "0xbb"; sampleWallet "Trust" "0xcc"])
      as (proxy & combinedHooks & initial & current & Hproxy & _ & _ & _
          & _ & _ & _ & Hsaved).
    destruct (Hsaved {| currentWallet := Some "Trust";
                        connectionId := Some 7%Z |} eq_refl)
      as [Hwallet Hid].
    eexists _, _. split; [exact Hproxy|]. cbn.
    destruct initial as [initialWallet initialId]. cbn in Hwallet, Hid.
    by rewrite Hwallet, Hid.
Defined.

(** *** The further properties at work on the sample wallets *)

Lemma Coinbase_registered : sampleWallet "Coinbase" "0xbb" ∈ sampleWallets.
Proof. by apply (list_elem_of_lookup_2 _ 1). Defined.

Lemma sampleWallets_unique : NoDup (name <$> sampleWallets).
Proof.
  cbn. repeat (apply NoDup_cons; split;
    [intros Hin;
     repeat (apply elem_of_cons in Hin as [Hin|Hin]; [discriminate Hin|]);
     by apply elem_of_nil in Hin|]).
  apply NoDup_nil_2.
Defined.

Lemma select_then_read_witness :
  let w := sampleWorld (Some "MetaMask") None 1000 false in
  let wallet := sampleWallet "Coinbase" "0xbb" in
  wallet ∈ sampleWallets
  ∧ memoCoherent sampleWallets None
  ∧ ∃ cell' w',
      ((setCurrentWallet "Coinbase" ≫= λ _, useCurrentWallet sampleWallets None)
         w = (inr (wallet, cell'), w'))
      ∧ currentWallet (store (env w')) = Some "Coinbase".
Proof.
  intros w wallet. split; [exact Coinbase_registered|]. split; [exact I|].
  destruct (select_then_read sampleWallets wallet None w Coinbase_registered I)
    as (found & cell' & Hread & _ & _ & Hunique & _).
  rewrite (Hunique sampleWallets_unique) in Hread.
  eexists _, _. split; [exact Hread|]. reflexivity.
Defined.

Lemma read_returns_registered_witness :
  let w := sampleWorld (Some "Trust") None 1000 false in
  sampleWallets !! 0 = Some (sampleWallet "MetaMask" "0xaa")
  ∧ memoCoherent sampleWallets None
  ∧ ∃ wallet cell',
      useCurrentWallet sampleWallets None w = (inr (wallet, cell'), w)
      ∧ wallet ∈ sampleWallets
      ∧ name wallet = "Trust".
Proof.
  intros w. split; [exact sampleWallets_first|]. split; [exact I|].
  destruct (read_returns_registered sampleWallets _ None w
              sampleWallets_first I)
    as (wallet & cell' & w' & Hread & Hin & _ & _ & Hsame & _).
  destruct (Hsame (sampleWallet "Trust" "0xcc")
              (list_elem_of_lookup_2 sampleWallets 2
                 (sampleWallet "Trust" "0xcc") eq_refl) eq_refl)
    as [-> Hname].
  exists wallet, cell'. split; [exact Hread|]. split; [exact Hin|exact Hname].
Defined.

Lemma rendering_calls_no_wallet_witness :
  let w := sampleWorld (Some "Ghost") (Some 5%Z) 1000 true in
  sampleWallets !! 0 = Some (sampleWallet "MetaMask" "0xaa")
  ∧ ∃ disconnect cell' w1,
      useDisconnect sampleWallets None w = (inr (disconnect, cell'), w1)
      ∧ calls w1 = []
      ∧ connectionId (store (env w1)) = Some 5%Z
      ∧ useConnectionId w = (inr (Some 5%Z), w).
Proof.
  intros w. split; [exact sampleWallets_first|].
  destruct (rendering_calls_no_wallet sampleWallets _ None w
              sampleWallets_first)
    as (wallet & cell' & w1 & connect & autoConnect & autoConnectOnce
        & disconnect & _ & _ & _ & _ & Hdisconnect & Hcalls & _ & _ & _
        & Hid & Huse).
  exists disconnect, cell', w1. split; [exact Hdisconnect|].
  split; [exact Hcalls|]. split; [exact Hid|exact Huse].
Defined.

Lemma connect_marks_success_witness :
  let w := sampleWorld (Some "Coinbase") None 1000 false in
  sampleWallets !! 0 = Some (sampleWallet "MetaMask" "0xaa")
  ∧ ∃ connect cell' w1 w2 w3,
      useConnect sampleWallets None w = (inr (connect, cell'), w1)
      ∧ setCurrentWallet "Trust" w1 = (inr tt, w2)
      ∧ connect [VNumber 1] w2 = (inr undefined, w3)
      ∧ calls w3 = [ConnectorCall "Coinbase" "connect" [VNumber 1]]
      ∧ connectionId (store (env w3)) = Some 1000%Z.
Proof.
  intros w. split; [exact sampleWallets_first|].
  destruct (connect_marks_success sampleWallets _ None w sampleWallets_first)
    as (wallet & cell' & w1 & connect & Hcur & Huse & Hreturn & _).
  injection Hcur as <- <- <-.
  eexists connect, _, _, _, _. split; [exact Huse|].
  split; [reflexivity|]. split.
  - exact (Hreturn [VNumber 1] _ undefined _ eq_refl).
  - split; reflexivity.
Defined.

Lemma autoConnect_passes_rejection_on_witness :
  let locked : Wallet bool :=
    {| name := "Locked";
       connector :=
         {| connect := connect sampleConnector;
            autoConnect := λ _ e, (inl (Rejected (VString "locked")), e);
            autoConnectOnce := autoConnectOnce sampleConnector;
            disconnect := disconnect sampleConnector |};
       hooks := ∅ |} in
  let w := sampleWorld (Some "Locked") (Some 5%Z) 1000 false in
  [locked] !! 0 = Some locked
  ∧ ∃ autoConnect cell' w1 w2,
      useAutoConnect [locked] None w = (inr (autoConnect, cell'), w1)
      ∧ autoConnect [] w1 = (inl (Rejected (VString "locked")), w2)
      ∧ calls w2 = [ConnectorCall "Locked" "autoConnect" []]
      ∧ connectionId (store (env w2)) = Some 5%Z.
Proof.
  intros locked w. split; [reflexivity|].
  destruct (autoConnect_passes_rejection_on [locked] locked None w eq_refl)
    as (wallet & cell' & w1 & autoConnect & Hcur & Huse & Hreject).
  injection Hcur as <- <- <-.
  eexists autoConnect, _, _, _. split; [exact Huse|]. split.
  - exact (Hreject [] w (Rejected (VString "locked")) _ eq_refl).
  - split; reflexivity.
Defined.

Lemma connectionId_gates_autoConnectOnce_witness :
  let w := sampleWorld (Some "MetaMask") None 1700000000000 false in
  sampleWallets !! 0 = Some (sampleWallet "MetaMask" "0xaa")
  ∧ ∃ connect autoConnectOnce cell' w1 w2 w3,
      useConnect sampleWallets None w = (inr (connect, cell'), w1)
      ∧ useAutoConnectOnce sampleWallets None w
        = (inr (autoConnectOnce, cell'), w1)
      ∧ connect [] w1 = (inr undefined, w2)
      ∧ clock (env w2) ≠ 0%Z
      ∧ autoConnectOnce [] w2 = (inr (VBoolean true), w3)
      ∧ calls w3 = [ConnectorCall "MetaMask" "connect" [];
                    ConnectorCall "MetaMask" "autoConnectOnce" []].
Proof.
  intros w. split; [exact sampleWallets_first|].
  destruct (connectionId_gates_autoConnectOnce sampleWallets _ None w
              sampleWallets_first)
    as (wallet & cell' & w1 & connect & disconnect & autoConnectOnce
        & Hcur & Hconnect & _ & Honce & _ & Hgate).
  injection Hcur as <- <- <-. injection Hconnect as <-.
  set (w2 := {| env := {| store := {| currentWallet := Some "MetaMask";
                                      connectionId := Some 1700000000000%Z |};
                          clock := 1700000000000; outside := true |};
                calls := [ConnectorCall "MetaMask" "connect" []];
                console := [] |} : World bool).
  assert (1700000000000 ≠ 0)%Z as Hclock by discriminate.
  pose proof (Hgate [] [] w w2 undefined eq_refl Hclock) as Hrun.
  eexists _, autoConnectOnce, _, w, w2, _. split; [reflexivity|].
  split; [exact Honce|]. split; [reflexivity|]. split; [exact Hclock|].
  split; [rewrite Hrun; reflexivity|reflexivity].
Defined.

Lemma restored_connectionId_gates_autoConnectOnce_witness :
  let options := {| defaultCurrentWallet := None; key := None |} in
  let w := sampleWorld None None 1000 true in
  (∃ proxy w0 autoConnectOnce cell' w1 w2,
     createWalletProxy sampleStorage sampleWallets options w = (inr proxy, w0)
     ∧ proxy_useAutoConnectOnce proxy None w0
       = (inr (autoConnectOnce, cell'), w1)
     ∧ autoConnectOnce [] w1 = (inr (VBoolean true), w2)
     ∧ calls w2 = [ConnectorCall "Trust" "autoConnectOnce" []])
  ∧ (∃ proxy w0 autoConnectOnce cell' w1 w2,
       createWalletProxy ∅ sampleWallets options w = (inr proxy, w0)
       ∧ proxy_useAutoConnectOnce proxy None w0
         = (inr (autoConnectOnce, cell'), w1)
       ∧ autoConnectOnce [] w1 = (inr (VBoolean false), w2)
       ∧ calls w2 = []).
Proof.
  intros options w. split.
  - destruct (restored_connectionId_gates_autoConnectOnce sampleStorage
                (sampleWallet "MetaMask" "0xaa")
                [sampleWallet "Coinbase" "0xbb"; sampleWallet "Trust" "0xcc"]
                options None w [])
      as (proxy & w0 & wallet & autoConnectOnce & cell' & w1
          & Hcreate & Hcur & Honce & Hrun).
    injection Hcreate as <- <-. injection Hcur as <- <- <-.
    eexists _, _, autoConnectOnce, _,
      (sampleWorld (Some "Trust") (Some 7%Z) 1000 true), _.
    split; [reflexivity|]. split; [exact Honce|].
    split; [etransitivity; [exact Hrun|reflexivity]|reflexivity].
  - destruct (restored_connectionId_gates_autoConnectOnce ∅
                (sampleWallet "MetaMask" "0xaa")
                [sampleWallet "Coinbase" "0xbb"; sampleWallet "Trust" "0xcc"]
                options None w [])
      as (proxy & w0 & wallet & autoConnectOnce & cell' & w1
          & Hcreate & Hcur & Honce & Hrun).
    injection Hcreate as <- <-. injection Hcur as <- <- <-.
    eexists _, _, autoConnectOnce, _,
      (sampleWorld (Some "MetaMask") None 1000 true), _.
    split; [reflexivity|]. split; [exact Honce|].
    split; [etransitivity; [exact Hrun|reflexivity]|reflexivity].
Defined.


Lemma combined_hook_stops_at_throwing_hook_witness :
  let hookFn : list Value → Js.M (Env bool) exn Value :=
    λ _ e, (inl (Error "no provider"), e) in
  let broken : Wallet bool :=
    {| name := "Broken"; connector := sampleConnector;
       hooks := {[ "useAccounts" := hookFn ]} |} in
  let wallets := [sampleWallet "MetaMask" "0xaa"; broken;
                  sampleWallet "Trust" "0xcc"] in
  let w := sampleWorld (Some "Trust") None 1000 false in
  wallets = [sampleWallet "MetaMask" "0xaa"]
            ++ broken :: [sampleWallet "Trust" "0xcc"]
  ∧ Forall (hookReturns "useAccounts") [sampleWallet "MetaMask" "0xaa"]
  ∧ hooks broken !! "useAccounts" = Some hookFn
  ∧ ∃ w',
      combinedHook wallets "useAccounts" [] w
        = (inl (Error "no provider"), w')
      ∧ calls w' = [HookCall "MetaMask" "useAccounts" [];
                    HookCall "Broken" "useAccounts" []].
Proof.
  intros hookFn broken wallets w.
  assert (Forall (hookReturns "useAccounts")
            [sampleWallet "MetaMask" "0xaa"]) as Hpre.
  { repeat constructor.
    eexists; split; [reflexivity|]; intros args e; eexists; reflexivity. }
  split; [reflexivity|]. split; [exact Hpre|]. split; [reflexivity|].
  destruct (combined_hook_stops_at_throwing_hook wallets
              [sampleWallet "MetaMask" "0xaa"] broken
              [sampleWallet "Trust" "0xcc"] "useAccounts" hookFn [] w
              eq_refl Hpre eq_refl)
    as (vs & e' & _ & Hrun).
  eexists. split; [exact (Hrun (Error "no provider") e' eq_refl)|].
  reflexivity.
Defined.

Lemma combined_hooks_follow_first_wallet_witness :
  let extra : Wallet bool :=
    {| name := "Extra"; connector := sampleConnector;
       hooks := {[ "useAccounts" := λ _ e, (inr undefined, e);
                   "useBalance" := λ _ e, (inr undefined, e) ]} |} in
  let wallets := [sampleWallet "MetaMask" "0xaa"; extra] in
  wallets !! 0 = Some (sampleWallet "MetaMask" "0xaa")
  ∧ ∃ combinedHooks,
      getCombinedHooks wallets = inr combinedHooks
      ∧ combinedHooks !! "useBalance" = None
      ∧ is_Some (combinedHooks !! "useAccounts").
Proof.
  intros extra wallets. split; [reflexivity|].
  destruct (combined_hooks_follow_first_wallet wallets
              (sampleWallet "MetaMask" "0xaa") eq_refl)
    as (_ & combinedHooks & Hcombined & Hdom & Hnone).
  exists combinedHooks. split; [exact Hcombined|].
  split; [exact (Hnone "useBalance" eq_refl)|].
  apply elem_of_dom. rewrite Hdom. apply elem_of_dom.
  eexists. reflexivity.
Defined.

End ProxyFacts.
